(** * The Inventory singleton of the creational-patterns demo

    Source: [class Inventory] (the Singleton solution; in this snapshot it
    sits in [src/module/Prototypes/bundle.old.ts], lines 96-144, and is
    imported by the UI as [module/SingleTon/inventory]).

    Numbers.  TypeScript's [number] is modelled exactly: a quantity is an
    integer ([Z]), a price is a rational ([Qc], canonical fractions, so that
    equality of prices is plain equality).  The IEEE corner values (NaN,
    infinities, negative zero, rounding above 2^53) are outside the model.

    Maps.  A JavaScript [Map<string, V>] iterates in insertion order and
    [set] on a present key keeps the key's position; it is modelled as an
    association list with that discipline.

    [console.log] calls write to the console only and are left out. *)

From Stdlib Require Import ZArith QArith Qcanon.
From stdpp Require Import base numbers list strings pretty.

Local Open Scope Z_scope.

(** ** JavaScript [Map] with string keys *)

Module JSMap.
Section JSMap.
Context {V : Type}.

Definition t : Type := list (string * V).

(** [new Map()] *)
Definition empty : t := [].

(** [m.get(k)]: [None] stands for [undefined]. *)
Fixpoint get (m : t) (k : string) : option V :=
  match m with
  | [] => None
  | (k', v) :: m' => if decide (k = k') then Some v else get m' k
  end.

(** [m.set(k, v)]: overwrite in place when [k] is present, otherwise
    append at the end. *)
Fixpoint set (m : t) (k : string) (v : V) : t :=
  match m with
  | [] => [(k, v)]
  | (k', v') :: m' =>
      if decide (k = k') then (k, v) :: m' else (k', v') :: set m' k v
  end.

(** [Array.from(m.entries())] *)
Definition entries (m : t) : list (string * V) := m.

(** The names present in the map, in iteration order. *)
Definition keys (m : t) : list string := m.*1.

(** Representation invariant of a [Map]: every key occurs once. *)
Definition wf (m : t) : Prop := NoDup (keys m).
End JSMap.
Arguments t : clear implicits.
End JSMap.

(** ** [x || 0] on numbers

    [undefined] and [0] are falsy, every other exact number is truthy. *)

Definition or0 (x : option Z) : Z :=
  match x with
  | Some v => if decide (v = 0) then 0 else v
  | None => 0
  end.

Definition or0_price (x : option Qc) : Qc :=
  match x with
  | Some v => if decide (v = 0%Qc) then 0%Qc else v
  | None => 0%Qc
  end.

(** ** The [Inventory] object *)

Record Inventory : Type := mkInventory {
  items : JSMap.t Z;
  prices : JSMap.t Qc;
}.

(** The private constructor. *)
Definition new_Inventory : Inventory :=
  {| items := JSMap.empty; prices := JSMap.empty |}.

(** Methods take the receiver [this] last and return their result together
    with the receiver's state after the call. *)

Definition addItem (name : string) (quantity : Z) (price : Qc)
    (this : Inventory) : unit * Inventory :=
  let this1 :=
    {| items := JSMap.set (items this) name
                  (or0 (JSMap.get (items this) name) + quantity);
       prices := prices this |} in
  let this2 :=
    {| items := items this1;
       prices := JSMap.set (prices this1) name price |} in
  (tt, this2).

Definition sellItem (name : string) (quantity : Z)
    (this : Inventory) : bool * Inventory :=
  let currentQuantity := or0 (JSMap.get (items this) name) in
  if currentQuantity <? quantity then (false, this)
  else
    (true,
     {| items := JSMap.set (items this) name (currentQuantity - quantity);
        prices := prices this |}).

Definition getStockCount (name : string) (this : Inventory) : Z * Inventory :=
  (or0 (JSMap.get (items this) name), this).

Definition getPrice (name : string) (this : Inventory) : Qc * Inventory :=
  (or0_price (JSMap.get (prices this) name), this).

Definition getAllItems (this : Inventory) : list (string * Z) * Inventory :=
  (JSMap.entries (items this), this).

(** Read-only views used in the statements below. *)
Definition stockOf (name : string) (this : Inventory) : Z :=
  (getStockCount name this).1.

Definition priceOf (name : string) (this : Inventory) : Qc :=
  (getPrice name this).1.

Definition wf_Inventory (this : Inventory) : Prop :=
  JSMap.wf (items this) /\ JSMap.wf (prices this).

(** ** Sequences of mutating calls on one object *)

Inductive call : Type :=
| AddItem (name : string) (quantity : Z) (price : Qc)
| SellItem (name : string) (quantity : Z).

Definition step (this : Inventory) (c : call) : Inventory :=
  match c with
  | AddItem name quantity price => (addItem name quantity price this).2
  | SellItem name quantity => (sellItem name quantity this).2
  end.

Definition run (cs : list call) (this : Inventory) : Inventory :=
  foldl step this cs.

(** A state the inventory can be in: some sequence of calls leads to it
    from the freshly constructed object. *)
Definition reachable (this : Inventory) : Prop :=
  exists cs, this = run cs new_Inventory.

Definition adds_name (name : string) (c : call) : bool :=
  match c with
  | AddItem n _ _ => bool_decide (n = name)
  | SellItem _ _ => false
  end.

(** [addItem] calls carry a non-negative quantity. *)
Definition add_nonneg (c : call) : bool :=
  match c with
  | AddItem _ quantity _ => 0 <=? quantity
  | SellItem _ _ => true
  end.

(** [sellItem] calls on [name] carry a non-negative quantity. *)
Definition sell_nonneg_on (name : string) (c : call) : bool :=
  match c with
  | AddItem _ _ _ => true
  | SellItem n quantity => negb (bool_decide (n = name)) || (0 <=? quantity)
  end.

(** Every recorded stock count is non-negative. *)
Definition nonneg_items (this : Inventory) : Prop :=
  Forall (fun kv : string * Z => 0 <= kv.2) (items this).

(** ** The static field and the handles

    Objects live in a heap and are named by references; the static field
    [Inventory.instance] holds [null] ([None]) or a reference. *)

Module Singleton.

Definition ref : Type := nat.

Record World : Type := mkWorld {
  heap : list Inventory;
  instance : option ref;
}.

(** Process start: no object allocated, [instance = null]. *)
Definition boot : World := {| heap := []; instance := None |}.

Definition getInstance (w : World) : ref * World :=
  match instance w with
  | None =>
      let r := length (heap w) in
      (r, {| heap := heap w ++ [new_Inventory]; instance := Some r |})
  | Some r => (r, w)
  end.

(** A method call through a reference mutates the object the reference
    names, in place.  A dangling reference has no counterpart in the
    source and yields [None]. *)
Definition invoke {A : Type} (r : ref) (m : Inventory -> A * Inventory)
    (w : World) : option (A * World) :=
  match heap w !! r with
  | Some obj =>
      let '(a, obj') := m obj in
      Some (a, {| heap := <[r := obj']> (heap w); instance := instance w |})
  | None => None
  end.

Inductive method : Type :=
| MAddItem (name : string) (quantity : Z) (price : Qc)
| MSellItem (name : string) (quantity : Z)
| MGetStockCount (name : string)
| MGetPrice (name : string)
| MGetAllItems.

Inductive result : Type :=
| RHandle
| RVoid
| RBool (b : bool)
| RNumber (z : Z)
| RPrice (p : Qc)
| REntries (l : list (string * Z)).

Definition exec (m : method) (this : Inventory) : result * Inventory :=
  match m with
  | MAddItem name quantity price =>
      let '(_, this') := addItem name quantity price this in (RVoid, this')
  | MSellItem name quantity =>
      let '(b, this') := sellItem name quantity this in (RBool b, this')
  | MGetStockCount name =>
      let '(z, this') := getStockCount name this in (RNumber z, this')
  | MGetPrice name =>
      let '(p, this') := getPrice name this in (RPrice p, this')
  | MGetAllItems =>
      let '(l, this') := getAllItems this in (REntries l, this')
  end.

(** A client program: it obtains handles with [Inventory.getInstance()]
    at any point and calls methods through the [h]-th handle it holds. *)
Inductive op : Type :=
| GetInstance
| Call (h : nat) (m : method).

Definition client : Type := World * list ref.

Definition client_step (st : client) (o : op) : option (result * client) :=
  match o with
  | GetInstance =>
      let '(r, w') := getInstance st.1 in Some (RHandle, (w', st.2 ++ [r]))
  | Call h m =>
      match st.2 !! h with
      | Some r =>
          match invoke r (exec m) st.1 with
          | Some (res, w') => Some (res, (w', st.2))
          | None => None
          end
      | None => None
      end
  end.

Fixpoint client_run (os : list op) (st : client)
    : option (list result * client) :=
  match os with
  | [] => Some ([], st)
  | o :: os' =>
      match client_step st o with
      | Some (res, st') =>
          match client_run os' st' with
          | Some (ress, st'') => Some (res :: ress, st'')
          | None => None
          end
      | None => None
      end
  end.

(** The reference model: the same operations applied to one mapping
    that is not reached through any handle. *)
Definition model_step (this : Inventory) (o : op) : result * Inventory :=
  match o with
  | GetInstance => (RHandle, this)
  | Call _ m => exec m this
  end.

Fixpoint model_run (os : list op) (this : Inventory)
    : list result * Inventory :=
  match os with
  | [] => ([], this)
  | o :: os' =>
      let '(res, this') := model_step this o in
      let '(ress, this'') := model_run os' this' in
      (res :: ress, this'')
  end.

(** Every call goes through a handle obtained earlier in the program;
    [n] handles are held at the start. *)
Fixpoint scoped (n : nat) (os : list op) : bool :=
  match os with
  | [] => true
  | GetInstance :: os' => scoped (S n) os'
  | Call h _ :: os' => (h <? n)%nat && scoped n os'
  end.

(** What ties a client to the reference model's one mapping [inv]: before
    the first [getInstance] nothing is allocated and no handle is held;
    afterwards the static field names an object equal to [inv] and every
    handle held is that reference. *)
Definition coherent (st : client) (inv : Inventory) : Prop :=
  match instance st.1 with
  | None => st.2 = [] /\ inv = new_Inventory
  | Some r => heap st.1 !! r = Some inv /\ Forall (eq r) st.2
  end.

End Singleton.

(** The name a mutating call is about. *)
Definition call_name (c : call) : string :=
  match c with
  | AddItem name _ _ => name
  | SellItem name _ => name
  end.

(** At most one [Inventory] has been constructed: nothing before the first
    [getInstance], one object afterwards, named by the static field and by
    every handle the client holds. *)
Definition one_object (st : Singleton.client) : Prop :=
  match Singleton.instance st.1 with
  | None => Singleton.heap st.1 = [] /\ st.2 = []
  | Some r =>
      r = 0%nat /\ length (Singleton.heap st.1) = 1%nat /\
      st.2 <> [] /\ Forall (eq 0%nat) st.2
  end.

Definition is_GetInstance (o : Singleton.op) : bool :=
  match o with
  | Singleton.GetInstance => true
  | Singleton.Call _ _ => false
  end.

(** ** The class without the Singleton pattern

    Source: the second [class Inventory] of the same file (lines 167-202,
    "Problem: Multiple inventory instances").  Its constructor is public,
    so every [new Inventory()] allocates an object of its own; its four
    methods [addItem], [sellItem], [getStockCount] and [getPrice] have the
    bodies of the singleton class, and it has no [getAllItems]. *)

Module Separate.

Abbreviation ref := nat.

Abbreviation Heap := (list Inventory).

(** [new Inventory()] *)
Definition construct (h : Heap) : ref * Heap :=
  (length h, h ++ [new_Inventory]).

Inductive method : Type :=
| MAddItem (name : string) (quantity : Z) (price : Qc)
| MSellItem (name : string) (quantity : Z)
| MGetStockCount (name : string)
| MGetPrice (name : string).

Definition exec (m : method) (this : Inventory)
    : Singleton.result * Inventory :=
  match m with
  | MAddItem name quantity price =>
      let '(_, this') := addItem name quantity price this in
      (Singleton.RVoid, this')
  | MSellItem name quantity =>
      let '(b, this') := sellItem name quantity this in
      (Singleton.RBool b, this')
  | MGetStockCount name =>
      let '(z, this') := getStockCount name this in
      (Singleton.RNumber z, this')
  | MGetPrice name =>
      let '(p, this') := getPrice name this in (Singleton.RPrice p, this')
  end.

(** A client program: [New] is [const x = new Inventory()], binding the
    next variable; [Call i m] calls [m] on the object the [i]-th variable
    names. *)
Inductive op : Type :=
| New
| Call (i : nat) (m : method).

Abbreviation client := (Heap * list ref)%type.

Definition client_step (st : client) (o : op)
    : option (Singleton.result * client) :=
  match o with
  | New =>
      let '(r, h') := construct st.1 in
      Some (Singleton.RHandle, (h', st.2 ++ [r]))
  | Call i m =>
      match st.2 !! i with
      | Some r =>
          match st.1 !! r with
          | Some obj =>
              let '(res, obj') := exec m obj in
              Some (res, (<[r := obj']> st.1, st.2))
          | None => None
          end
      | None => None
      end
  end.

Fixpoint client_run (os : list op) (st : client)
    : option (list Singleton.result * client) :=
  match os with
  | [] => Some ([], st)
  | o :: os' =>
      match client_step st o with
      | Some (res, st') =>
          match client_run os' st' with
          | Some (ress, st'') => Some (res :: ress, st'')
          | None => None
          end
      | None => None
      end
  end.

Fixpoint scoped (n : nat) (os : list op) : bool :=
  match os with
  | [] => true
  | New :: os' => scoped (S n) os'
  | Call i _ :: os' => (i <? n)%nat && scoped n os'
  end.

(** The calls a program makes through its [i]-th variable, in order. *)
Fixpoint calls_of (i : nat) (os : list op) : list method :=
  match os with
  | [] => []
  | New :: os' => calls_of i os'
  | Call j m :: os' =>
      if decide (j = i) then m :: calls_of i os' else calls_of i os'
  end.

(** The results a program got from the calls through its [i]-th
    variable, picked out of the trace of all results. *)
Fixpoint results_of (i : nat) (os : list op) (tr : list Singleton.result)
    : list Singleton.result :=
  match os, tr with
  | New :: os', _ :: tr' => results_of i os' tr'
  | Call j _ :: os', res :: tr' =>
      if decide (j = i) then res :: results_of i os' tr'
      else results_of i os' tr'
  | _, _ => []
  end.

(** Running a list of calls on one object that nothing else touches. *)
Fixpoint private_run (ms : list method) (this : Inventory)
    : list Singleton.result * Inventory :=
  match ms with
  | [] => ([], this)
  | m :: ms' =>
      let '(res, this') := exec m this in
      let '(ress, this'') := private_run ms' this' in
      (res :: ress, this'')
  end.

End Separate.

(** ** The interactive demo that drives the singleton

    Source: [SingletonDemo] in
    [src/components/PatternDemos/SingletonDemo.tsx], lines 9-72 (the
    component state and the four click handlers) and the [onChange]
    handlers of its inputs.  A handler reads the component state of the
    render it was created in and queues state updates; the model applies
    them at the end of the handler.  The text a template literal produces
    for a number is JavaScript's, not the repository's: it is a parameter
    ([show_count] for stock counts and quantities, [show_price] for
    prices). *)

Module Demo.
Section Demo.
Variable show_count : Z -> string.
Variable show_price : Qc -> string.

Record State : Type := mkState {
  logs : list string;
  itemName : string;
  quantity : Z;
  price : Qc;
  sellQuantity : Z;
}.

(** The [useState] initial values. *)
Definition initial : State :=
  {| logs := []; itemName := ""; quantity := 1; price := Q2Qc 0.99;
     sellQuantity := 1 |}.

Definition appendLog (message : string) (ui : State) : State :=
  {| logs := logs ui ++ [message]; itemName := itemName ui;
     quantity := quantity ui; price := price ui;
     sellQuantity := sellQuantity ui |}.

(** The page: the module-level static field and heap, and the component
    state. *)
Definition App : Type := Singleton.World * State.

Definition handleAddItem (app : App) : option App :=
  let '(w, ui) := app in
  if decide (itemName ui = "") then Some app
  else
    let '(inventory, w1) := Singleton.getInstance w in
    match
      Singleton.invoke inventory
        (addItem (itemName ui) (quantity ui) (price ui)) w1
    with
    | Some (_, w2) =>
        let ui1 :=
          appendLog
            ("Added " +:+ show_count (quantity ui) +:+ " " +:+ itemName ui
             +:+ "(s) at $" +:+ show_price (price ui)
             +:+ " each to inventory") ui in
        Some (w2, {| logs := logs ui1; itemName := ""; quantity := 1;
                     price := Q2Qc 0.99; sellQuantity := sellQuantity ui1 |})
    | None => None
    end.

Definition handleSellItem (app : App) : option App :=
  let '(w, ui) := app in
  if decide (itemName ui = "") then Some app
  else
    let '(inventory, w1) := Singleton.getInstance w in
    match
      Singleton.invoke inventory (sellItem (itemName ui) (sellQuantity ui)) w1
    with
    | Some (success, w2) =>
        let ui1 :=
          if success
          then appendLog
                 ("Sold " +:+ show_count (sellQuantity ui) +:+ " "
                  +:+ itemName ui +:+ "(s)") ui
          else appendLog
                 ("Failed to sell " +:+ show_count (sellQuantity ui) +:+ " "
                  +:+ itemName ui +:+ "(s) - insufficient stock") ui in
        Some (w2, {| logs := logs ui1; itemName := itemName ui1;
                     quantity := quantity ui1; price := price ui1;
                     sellQuantity := 1 |})
    | None => None
    end.

Definition handleCheckStock (app : App) : option App :=
  let '(w, ui) := app in
  if decide (itemName ui = "") then Some app
  else
    let '(inventory, w1) := Singleton.getInstance w in
    match Singleton.invoke inventory (getStockCount (itemName ui)) w1 with
    | Some (count, w2) =>
        match Singleton.invoke inventory (getPrice (itemName ui)) w2 with
        | Some (itemPrice, w3) =>
            Some (w3,
                  appendLog
                    ("Stock check: " +:+ show_count count +:+ " "
                     +:+ itemName ui +:+ "(s) available at $"
                     +:+ show_price itemPrice +:+ " each") ui)
        | None => None
        end
    | None => None
    end.

(** The body of the [forEach] callback of [handleShowAllItems]. *)
Definition showItem (inventory : Singleton.ref) (acc : option App)
    (entry : string * Z) : option App :=
  match acc with
  | Some (w, ui) =>
      let '(name, count) := entry in
      match Singleton.invoke inventory (getPrice name) w with
      | Some (itemPrice, w') =>
          Some (w',
                appendLog
                  ("- " +:+ name +:+ ": " +:+ show_count count
                   +:+ " in stock at $" +:+ show_price itemPrice +:+ " each")
                  ui)
      | None => None
      end
  | None => None
  end.

Definition handleShowAllItems (app : App) : option App :=
  let '(w, ui) := app in
  let '(inventory, w1) := Singleton.getInstance w in
  match Singleton.invoke inventory getAllItems w1 with
  | Some (items, w2) =>
      if decide (length items = 0%nat)
      then Some (w2, appendLog "Inventory is empty" ui)
      else
        foldl (showItem inventory)
          (Some (w2, appendLog "Current inventory:" ui)) items
  | None => None
  end.

(** What the user can do.  A [Type...] event carries the value the
    [onChange] handler stores: the text of the name field, or the number
    [parseInt(...) || 0] resp. [parseFloat(...) || 0] made of the text of
    a number field. *)
Inductive event : Type :=
| TypeItemName (v : string)
| TypeQuantity (n : Z)
| TypePrice (p : Qc)
| TypeSellQuantity (n : Z)
| ClickAdd
| ClickSell
| ClickCheckStock
| ClickShowAll.

Definition dispatch (app : App) (e : event) : option App :=
  match e with
  | TypeItemName v =>
      Some (app.1, {| logs := logs app.2; itemName := v;
                      quantity := quantity app.2; price := price app.2;
                      sellQuantity := sellQuantity app.2 |})
  | TypeQuantity n =>
      Some (app.1, {| logs := logs app.2; itemName := itemName app.2;
                      quantity := n; price := price app.2;
                      sellQuantity := sellQuantity app.2 |})
  | TypePrice p =>
      Some (app.1, {| logs := logs app.2; itemName := itemName app.2;
                      quantity := quantity app.2; price := p;
                      sellQuantity := sellQuantity app.2 |})
  | TypeSellQuantity n =>
      Some (app.1, {| logs := logs app.2; itemName := itemName app.2;
                      quantity := quantity app.2; price := price app.2;
                      sellQuantity := n |})
  | ClickAdd => handleAddItem app
  | ClickSell => handleSellItem app
  | ClickCheckStock => handleCheckStock app
  | ClickShowAll => handleShowAllItems app
  end.

Fixpoint session (es : list event) (app : App) : option App :=
  match es with
  | [] => Some app
  | e :: es' =>
      match dispatch app e with
      | Some app' => session es' app'
      | None => None
      end
  end.

(** The page as loaded. *)
Definition loaded : App := (Singleton.boot, initial).

(** The inventory calls an event makes, given the form it finds. *)
Definition calls_of (ui : State) (e : event) : list call :=
  match e with
  | ClickAdd =>
      if decide (itemName ui = "") then []
      else [AddItem (itemName ui) (quantity ui) (price ui)]
  | ClickSell =>
      if decide (itemName ui = "") then []
      else [SellItem (itemName ui) (sellQuantity ui)]
  | _ => []
  end.

(** The quantity typed into the "Quantity" field is not negative. *)
Definition quantity_nonneg (e : event) : bool :=
  match e with
  | TypeQuantity n => 0 <=? n
  | _ => true
  end.

(** The inventory the page works on: the object behind the static field,
    or the empty inventory while none has been constructed. *)
Definition inventory_of (w : Singleton.World) : Inventory :=
  match Singleton.instance w with
  | Some r => default new_Inventory (Singleton.heap w !! r)
  | None => new_Inventory
  end.

(** The static field, once set, names an allocated object. *)
Definition live (w : Singleton.World) : Prop :=
  match Singleton.instance w with
  | Some r => (r < length (Singleton.heap w))%nat
  | None => True
  end.

End Demo.
End Demo.

(** ** Produce bundles copied by hand

    Source: [class ProduceBundle] and [class BundleItem] of
    [src/module/Prototypes/bundle.old.ts], lines 1-73.  Bundles, the
    arrays they hold and the items in them are mutable objects with public
    fields, so they live in a heap and are named by references: what a
    copy shares with its original is part of the behaviour. *)

Module BundleItem.
Record t : Type := mk {
  name : string;
  price : Qc;
  quantity : Z;
  organic : bool;
}.
End BundleItem.

Module ProduceBundle.

Abbreviation ref := nat.

(** A [ProduceBundle] object.  [items] and [tags] hold references to an
    [Array<BundleItem>] and to a [string[]]. *)
Record t : Type := mk {
  name : string;
  items : ref;
  totalPrice : Qc;
  discountPercentage : Qc;
  tags : ref;
  seasonal : bool;
}.

Record Heap : Type := mkHeap {
  objs : list BundleItem.t;
  arrays : list (list ref);
  strings : list (list string);
  bundles : list t;
}.

(** Code that reads and allocates in the heap; [None] is a read through a
    reference that names nothing. *)
Definition M (A : Type) : Type := Heap -> option (A * Heap).

Definition ret {A : Type} (a : A) : M A := fun h => Some (a, h).

Definition bind {A B : Type} (m : M A) (k : A -> M B) : M B :=
  fun h =>
    match m h with
    | Some (a, h') => k a h'
    | None => None
    end.

Notation "'let!' x ':=' m 'in' k" := (bind m (fun x => k))
  (at level 10, x name, m at level 100, k at level 200, only parsing).

(** [new BundleItem(name, price, quantity, organic)] *)
Definition new_BundleItem (name : string) (price : Qc) (quantity : Z)
    (organic : bool) : M ref :=
  fun h =>
    Some (length (objs h),
          {| objs := objs h ++ [BundleItem.mk name price quantity organic];
             arrays := arrays h; strings := strings h;
             bundles := bundles h |}).

Definition read_item (r : ref) : M BundleItem.t :=
  fun h => match objs h !! r with Some it => Some (it, h) | None => None end.

(** A fresh [Array<BundleItem>] with the given elements. *)
Definition new_array (l : list ref) : M ref :=
  fun h =>
    Some (length (arrays h),
          {| objs := objs h; arrays := arrays h ++ [l];
             strings := strings h; bundles := bundles h |}).

Definition read_array (r : ref) : M (list ref) :=
  fun h => match arrays h !! r with Some l => Some (l, h) | None => None end.

(** A fresh [string[]] with the given elements. *)
Definition new_strings (l : list string) : M ref :=
  fun h =>
    Some (length (strings h),
          {| objs := objs h; arrays := arrays h;
             strings := strings h ++ [l]; bundles := bundles h |}).

Definition read_strings (r : ref) : M (list string) :=
  fun h => match strings h !! r with Some l => Some (l, h) | None => None end.

Definition read_bundle (r : ref) : M t :=
  fun h => match bundles h !! r with Some b => Some (b, h) | None => None end.

Definition alloc_bundle (b : t) : M ref :=
  fun h =>
    Some (length (bundles h),
          {| objs := objs h; arrays := arrays h; strings := strings h;
             bundles := bundles h ++ [b] |}).

(** [l.map(f)] on the elements of an array, left to right. *)
Fixpoint map_elements {A B : Type} (f : A -> M B) (l : list A) : M (list B) :=
  match l with
  | [] => ret []
  | x :: l' =>
      let! y := f x in
      let! ys := map_elements f l' in
      ret (y :: ys)
  end.

(** [l.reduce(f, init)] on the elements of an array, left to right. *)
Fixpoint reduce_elements {A B : Type} (f : B -> A -> M B) (init : B)
    (l : list A) : M B :=
  match l with
  | [] => ret init
  | x :: l' => let! acc := f init x in reduce_elements f acc l'
  end.

(** The [reduce] of [calculateTotalPrice], on the array [items]. *)
Definition total_of (items : ref) : M Qc :=
  let! l := read_array items in
  reduce_elements
    (fun total r =>
       let! item := read_item r in
       ret (total + BundleItem.price item
                    * Qc_of_Z (BundleItem.quantity item))%Qc)
    0%Qc l.

Definition calculateTotalPrice (this : ref) : M Qc :=
  let! b := read_bundle this in
  total_of (items b).

(** The constructor.  It stores the array references it is given;
    [this.totalPrice = this.calculateTotalPrice()] runs when [this.items]
    is set and reads nothing else of [this]. *)
Definition new_ProduceBundle (name : string) (items : ref)
    (discountPercentage : Qc) (tags : ref) (seasonal : bool) : M ref :=
  let! total := total_of items in
  alloc_bundle
    {| name := name; items := items; totalPrice := total;
       discountPercentage := discountPercentage; tags := tags;
       seasonal := seasonal |}.

Definition getDiscountedPrice (this : ref) : M Qc :=
  let! b := read_bundle this in
  ret (totalPrice b * (1 - discountPercentage b / Qc_of_Z 100))%Qc.

(** The callback of both [items.map] calls. *)
Definition copy_item (r : ref) : M ref :=
  let! item := read_item r in
  new_BundleItem (BundleItem.name item) (BundleItem.price item)
    (BundleItem.quantity item) (BundleItem.organic item).

Definition createSimilarBundle (this : ref) (newName : string)
    (additionalDiscount : Qc) : M ref :=
  let! b := read_bundle this in
  let! l := read_array (items b) in
  let! copied := map_elements copy_item l in
  let! copiedItems := new_array copied in
  let! tg := read_strings (tags b) in
  let! newTags := new_strings tg in
  new_ProduceBundle newName copiedItems
    (discountPercentage b + additionalDiscount)%Qc newTags (seasonal b).


(** What a bundle looks like to a reader that follows its references. *)
Record View : Type := mkView {
  v_name : string;
  v_items : list BundleItem.t;
  v_totalPrice : Qc;
  v_discountPercentage : Qc;
  v_tags : list string;
  v_seasonal : bool;
}.

Definition view (h : Heap) (b : ref) : option View :=
  match bundles h !! b with
  | Some bd =>
      match arrays h !! items bd, strings h !! tags bd with
      | Some l, Some tg =>
          match mapM (fun r => objs h !! r) l with
          | Some its =>
              Some {| v_name := name bd; v_items := its;
                      v_totalPrice := totalPrice bd;
                      v_discountPercentage := discountPercentage bd;
                      v_tags := tg; v_seasonal := seasonal bd |}
          | None => None
          end
      | _, _ => None
      end
  | None => None
  end.

(** The sum [calculateTotalPrice] forms, on item values. *)
Definition sum_prices (its : list BundleItem.t) : Qc :=
  foldl (fun total item =>
           (total + BundleItem.price item
                    * Qc_of_Z (BundleItem.quantity item))%Qc) 0%Qc its.

(** Assignments a client can make through the public fields:
    [item.f = ...] on an item object, and any in-place change of an
    array ([push], [splice], an index assignment). *)
Definition set_item (r : ref) (it : BundleItem.t) (h : Heap) : Heap :=
  {| objs := <[r := it]> (objs h); arrays := arrays h;
     strings := strings h; bundles := bundles h |}.

Definition set_array (r : ref) (l : list ref) (h : Heap) : Heap :=
  {| objs := objs h; arrays := <[r := l]> (arrays h);
     strings := strings h; bundles := bundles h |}.

Definition set_strings (r : ref) (l : list string) (h : Heap) : Heap :=
  {| objs := objs h; arrays := arrays h;
     strings := <[r := l]> (strings h); bundles := bundles h |}.

Definition empty_heap : Heap :=
  {| objs := []; arrays := []; strings := []; bundles := [] |}.

(** The source's usage example (lines 84-91): the three items, the item
    array and the tag array handed to the constructor, the heap once
    [weekdayBundle] is constructed, and the heap once [weekendBundle] has
    been made from it with [createSimilarBundle("Weekend Special", 5)]. *)
Definition weekday_items : list BundleItem.t :=
  [BundleItem.mk "Carrot" (Q2Qc 1.99) 5 false;
   BundleItem.mk "Apple" (Q2Qc 0.99) 3 false;
   BundleItem.mk "Kale" (Q2Qc 4.50) 1 false].

Definition weekday_parts : Heap :=
  {| objs := weekday_items; arrays := [[0; 1; 2]%nat];
     strings := [["popular"; "healthy"]]; bundles := [] |}.

Definition weekday_heap : Heap :=
  {| objs := weekday_items; arrays := [[0; 1; 2]%nat];
     strings := [["popular"; "healthy"]];
     bundles :=
       [ {| name := "Weekday Mix"; items := 0%nat;
            totalPrice := sum_prices weekday_items;
            discountPercentage := Q2Qc 10; tags := 0%nat;
            seasonal := false |} ] |}.

Definition weekday_view : View :=
  {| v_name := "Weekday Mix"; v_items := weekday_items;
     v_totalPrice := sum_prices weekday_items;
     v_discountPercentage := Q2Qc 10;
     v_tags := ["popular"; "healthy"]; v_seasonal := false |}.

Definition weekend_heap : Heap :=
  match createSimilarBundle 0 "Weekend Special" (Q2Qc 5) weekday_heap with
  | Some (_, h) => h
  | None => weekday_heap
  end.

End ProduceBundle.

(** * Facts about the map operations *)

Module JSMapFacts.
Section JSMapFacts.
Context {V : Type}.
Implicit Types (m : JSMap.t V) (k : string) (v : V).

Lemma get_set_eq m k v : JSMap.get (JSMap.set m k v) k = Some v.
Proof.
  induction m as [|[k' v'] m IH]; simpl.
  - by rewrite decide_True.
  - destruct (decide (k = k')) as [->|Hne]; simpl.
    + by rewrite decide_True.
    + by rewrite decide_False.
Qed.

Lemma get_set_ne m k k' v :
  k <> k' -> JSMap.get (JSMap.set m k v) k' = JSMap.get m k'.
Proof.
  intros Hne. induction m as [|[k0 v0] m IH]; simpl.
  - by rewrite decide_False.
  - destruct (decide (k = k0)) as [->|Hk]; simpl.
    + by rewrite !(decide_False (P := k' = k0)).
    + by rewrite IH.
Qed.

Lemma keys_set m k v k' :
  k' ∈ JSMap.keys (JSMap.set m k v) <-> k' = k \/ k' ∈ JSMap.keys m.
Proof.
  unfold JSMap.keys. induction m as [|[k0 v0] m IH]; simpl.
  - rewrite list_elem_of_singleton. split; [auto|].
    intros [?|Hin]; [done|by apply elem_of_nil in Hin].
  - destruct (decide (k = k0)) as [->|Hk]; simpl.
    + rewrite !elem_of_cons. tauto.
    + rewrite !elem_of_cons, IH. tauto.
Qed.

Lemma keys_set_mono m k v k' :
  k' ∈ JSMap.keys m -> k' ∈ JSMap.keys (JSMap.set m k v).
Proof. rewrite keys_set. auto. Qed.

Lemma wf_empty : JSMap.wf (JSMap.empty (V := V)).
Proof. constructor. Qed.

Lemma wf_set m k v : JSMap.wf m -> JSMap.wf (JSMap.set m k v).
Proof.
  unfold JSMap.wf. induction m as [|[k0 v0] m IH]; simpl; intros Hwf.
  - unfold JSMap.keys; simpl. apply NoDup_singleton.
  - unfold JSMap.keys in *; simpl in *.
    apply NoDup_cons in Hwf as [Hnotin Hwf].
    destruct (decide (k = k0)) as [->|Hk]; simpl.
    + by apply NoDup_cons.
    + apply NoDup_cons. split; [|by apply IH].
      intros Hin. apply (keys_set m k v k0) in Hin as [->|Hin]; done.
Qed.

Lemma get_None_keys m k : JSMap.get m k = None <-> k ∉ JSMap.keys m.
Proof.
  unfold JSMap.keys. induction m as [|[k0 v0] m IH]; simpl.
  - split; [intros _; apply not_elem_of_nil|done].
  - destruct (decide (k = k0)) as [->|Hk].
    + split; [done|]. intros Hnotin. destruct Hnotin. apply elem_of_cons. by left.
    + rewrite IH, not_elem_of_cons. tauto.
Qed.

Lemma get_is_Some_keys m k : is_Some (JSMap.get m k) <-> k ∈ JSMap.keys m.
Proof.
  rewrite <- not_eq_None_Some, get_None_keys.
  split; [apply dec_stable | auto].
Qed.

Lemma elem_of_entries_get m k v :
  JSMap.wf m -> (k, v) ∈ JSMap.entries m -> JSMap.get m k = Some v.
Proof.
  unfold JSMap.wf, JSMap.keys, JSMap.entries.
  induction m as [|[k0 v0] m IH]; simpl; intros Hwf Hin.
  - by apply elem_of_nil in Hin.
  - apply NoDup_cons in Hwf as [Hnotin Hwf].
    apply elem_of_cons in Hin as [[= -> ->]|Hin].
    + by rewrite decide_True.
    + rewrite decide_False; [by apply IH|].
      intros ->. apply Hnotin. apply list_elem_of_fmap. by exists (k0, v).
Qed.

Lemma get_elem_of_entries m k v :
  JSMap.get m k = Some v -> (k, v) ∈ JSMap.entries m.
Proof.
  unfold JSMap.entries. induction m as [|[k0 v0] m IH]; simpl; [done|].
  destruct (decide (k = k0)) as [->|Hk].
  - intros [= ->]. apply elem_of_cons. by left.
  - intros Hget. apply elem_of_cons. right. by apply IH.
Qed.

Lemma set_elem_of_entries m k v : (k, v) ∈ JSMap.entries (JSMap.set m k v).
Proof. apply get_elem_of_entries, get_set_eq. Qed.
End JSMapFacts.
End JSMapFacts.

Lemma or0_Some (z : Z) : or0 (Some z) = z.
Proof. unfold or0. by case_decide. Qed.

Lemma or0_price_Some (p : Qc) : or0_price (Some p) = p.
Proof. unfold or0_price. by case_decide. Qed.

(** * The methods on one object *)

Section Methods.
Implicit Types (this : Inventory) (name : string) (quantity : Z) (price : Qc).

Lemma stockOf_get this name z :
  JSMap.get (items this) name = Some z -> stockOf name this = z.
Proof. unfold stockOf; simpl. intros ->. apply or0_Some. Qed.

Lemma stockOf_absent this name :
  JSMap.get (items this) name = None -> stockOf name this = 0.
Proof. unfold stockOf; simpl. by intros ->. Qed.

Lemma stockOf_addItem this name quantity price :
  stockOf name (addItem name quantity price this).2
  = stockOf name this + quantity.
Proof.
  unfold stockOf; simpl. by rewrite JSMapFacts.get_set_eq, or0_Some.
Qed.

Lemma stockOf_addItem_ne this name name' quantity price :
  name <> name' ->
  stockOf name' (addItem name quantity price this).2 = stockOf name' this.
Proof.
  intros Hne. unfold stockOf; simpl. by rewrite JSMapFacts.get_set_ne.
Qed.

Lemma priceOf_addItem this name quantity price :
  priceOf name (addItem name quantity price this).2 = price.
Proof.
  unfold priceOf; simpl. by rewrite JSMapFacts.get_set_eq, or0_price_Some.
Qed.

Lemma sellItem_result this name quantity :
  (sellItem name quantity this).1 = (quantity <=? stockOf name this).
Proof.
  unfold sellItem, stockOf; simpl.
  destruct (Z.ltb_spec (or0 (JSMap.get (items this) name)) quantity);
    simpl; symmetry; [apply Z.leb_gt | apply Z.leb_le]; lia.
Qed.

Lemma sellItem_false this name quantity :
  (sellItem name quantity this).1 = false ->
  (sellItem name quantity this).2 = this.
Proof. unfold sellItem. by case_match. Qed.

Lemma stockOf_sellItem_true this name quantity :
  (sellItem name quantity this).1 = true ->
  stockOf name (sellItem name quantity this).2
  = stockOf name this - quantity.
Proof.
  unfold sellItem, stockOf; simpl. case_match; [done|]. simpl.
  by rewrite JSMapFacts.get_set_eq, or0_Some.
Qed.

Lemma stockOf_sellItem_ne this name name' quantity :
  name <> name' ->
  stockOf name' (sellItem name quantity this).2 = stockOf name' this.
Proof.
  intros Hne. unfold sellItem, stockOf; simpl. case_match; [done|]. simpl.
  by rewrite JSMapFacts.get_set_ne.
Qed.

Lemma prices_sellItem this name quantity :
  prices (sellItem name quantity this).2 = prices this.
Proof. unfold sellItem. by case_match. Qed.

Lemma keys_step this (c : call) name :
  name ∈ JSMap.keys (items this) -> name ∈ JSMap.keys (items (step this c)).
Proof.
  destruct c as [n q p|n q]; simpl.
  - apply JSMapFacts.keys_set_mono.
  - unfold sellItem. case_match; [done|]. apply JSMapFacts.keys_set_mono.
Qed.

Lemma keys_run (cs : list call) this name :
  name ∈ JSMap.keys (items this) ->
  name ∈ JSMap.keys (items (run cs this)).
Proof.
  unfold run. revert this.
  induction cs as [|c cs IH]; intros this Hin; simpl; [done|].
  by apply IH, keys_step.
Qed.

Lemma wf_step this (c : call) : wf_Inventory this -> wf_Inventory (step this c).
Proof.
  intros [Hi Hp]. destruct c as [n q p|n q]; simpl.
  - split; simpl; by apply JSMapFacts.wf_set.
  - unfold sellItem. case_match; [done|].
    split; simpl; [by apply JSMapFacts.wf_set|done].
Qed.

Lemma wf_reachable this : reachable this -> wf_Inventory this.
Proof.
  intros [cs ->]. unfold run.
  assert (Hnew : wf_Inventory new_Inventory)
    by (split; apply JSMapFacts.wf_empty).
  revert Hnew. generalize new_Inventory.
  induction cs as [|c cs IH]; intros s Hs; simpl; [done|].
  by apply IH, wf_step.
Qed.
End Methods.

(** * The claims *)

(** C2.  [sellItem(name, q)] returns [true] exactly when
    [q <= getStockCount(name)] just before the call; on [true] the stock of
    [name] afterwards is the stock before minus [q]; on [false] the stock
    of [name] (indeed the whole state) is unchanged. *)
Theorem sellItem_monotonicity (this : Inventory) (name : string) (quantity : Z) :
  let pre := (getStockCount name this).1 in
  let r := sellItem name quantity this in
  (r.1 = true <-> quantity <= pre) /\
  (getStockCount name r.2).1 = (if r.1 then pre - quantity else pre) /\
  (if r.1 then True else r.2 = this).
Proof.
  cbv zeta. fold (stockOf name this).
  fold (stockOf name (sellItem name quantity this).2).
  split; [|split].
  - rewrite sellItem_result. apply Z.leb_le.
  - destruct (sellItem name quantity this).1 eqn:Hr.
    + by apply stockOf_sellItem_true.
    + by rewrite sellItem_false.
  - destruct (sellItem name quantity this).1 eqn:Hr; [done|].
    by apply sellItem_false.
Qed.

(** C4.  [addItem(name, quantity, price)] always returns normally (it is a
    total function with result [void]); afterwards the stock of [name] is
    its stock before (0 when [name] was absent) plus [quantity], and the
    price map holds [price] for [name], whatever it held before. *)
Theorem addItem_effect (this : Inventory) (name : string) (quantity : Z)
    (price : Qc) :
  exists this',
    addItem name quantity price this = (tt, this') /\
    (getStockCount name this').1
    = match JSMap.get (items this) name with
      | Some z => z
      | None => 0
      end + quantity /\
    (getStockCount name this').1 = (getStockCount name this).1 + quantity /\
    JSMap.get (prices this') name = Some price /\
    (getPrice name this').1 = price.
Proof.
  exists (addItem name quantity price this).2.
  split; [done|].
  pose proof (stockOf_addItem this name quantity price) as Hs.
  pose proof (priceOf_addItem this name quantity price) as Hp.
  unfold stockOf, priceOf in *.
  split; [|split; [done|split; [|done]]].
  - rewrite Hs. simpl. f_equal.
    destruct (JSMap.get (items this) name); [apply or0_Some|done].
  - simpl. apply JSMapFacts.get_set_eq.
Qed.

(** C5.  From a state in which [name] is absent, [addItem(name, q1, p1)]
    then [addItem(name, q2, p2)] gives [getStockCount(name) = q1 + q2] and
    [getPrice(name) = p2]. *)
Theorem add_accumulation (this : Inventory) (name : string) (q1 q2 : Z)
    (p1 p2 : Qc) :
  name ∉ JSMap.keys (items this) ->
  let this1 := (addItem name q1 p1 this).2 in
  let this2 := (addItem name q2 p2 this1).2 in
  (getStockCount name this2).1 = q1 + q2 /\ (getPrice name this2).1 = p2.
Proof.
  intros Habs this1 this2. subst this1 this2.
  apply JSMapFacts.get_None_keys in Habs.
  fold (stockOf name (addItem name q2 p2 (addItem name q1 p1 this).2).2).
  fold (priceOf name (addItem name q2 p2 (addItem name q1 p1 this).2).2).
  rewrite !stockOf_addItem, priceOf_addItem, (stockOf_absent _ _ Habs).
  split; [lia|done].
Qed.

Lemma add_accumulation_witness :
  ("Apple" ∉ JSMap.keys (items new_Inventory)) /\
  (getStockCount "Apple"
     (addItem "Apple" 20 (Q2Qc 2)
        (addItem "Apple" 50 (Q2Qc 1.5) new_Inventory).2).2).1 = 70 /\
  (getPrice "Apple"
     (addItem "Apple" 20 (Q2Qc 2)
        (addItem "Apple" 50 (Q2Qc 1.5) new_Inventory).2).2).1 = Q2Qc 2.
Proof.
  assert (Habs : "Apple" ∉ JSMap.keys (items new_Inventory))
    by apply not_elem_of_nil.
  split; [exact Habs|].
  exact (add_accumulation new_Inventory "Apple" 50 20 (Q2Qc 1.5) (Q2Qc 2) Habs).
Defined.

(** C8.  On a well-formed stock map, [getAllItems()] lists every name of
    the stock map once and no other name, pairs each name with
    [getStockCount(name)], and leaves the state as it was.  (The pairs come
    in the map's iteration order; the statement does not depend on it.) *)
Theorem getAllItems_snapshot (this : Inventory) :
  JSMap.wf (items this) ->
  let r := getAllItems this in
  NoDup r.1.*1 /\
  (forall name,
     name ∈ JSMap.keys (items this) <-> exists count, (name, count) ∈ r.1) /\
  (forall name count,
     (name, count) ∈ r.1 <->
     name ∈ JSMap.keys (items this) /\ count = (getStockCount name this).1) /\
  r.2 = this.
Proof.
  intros Hwf r. subst r. simpl.
  split; [exact Hwf|]. split; [|split; [|done]].
  - intros name. unfold JSMap.keys, JSMap.entries. rewrite list_elem_of_fmap.
    split.
    + intros [[n c] [-> Hin]]. by exists c.
    + intros [c Hin]. by exists (name, c).
  - intros name count. split.
    + intros Hin. split.
      * unfold JSMap.keys. apply list_elem_of_fmap. by exists (name, count).
      * apply JSMapFacts.elem_of_entries_get in Hin; [|done].
        by rewrite Hin, or0_Some.
    + intros [Hin ->]. apply JSMapFacts.get_is_Some_keys in Hin as [z Hz].
      rewrite Hz, or0_Some. by apply JSMapFacts.get_elem_of_entries.
Qed.

Lemma getAllItems_snapshot_witness :
  JSMap.wf (items (addItem "Kale" 3 (Q2Qc 4.5)
                     (addItem "Apple" 50 (Q2Qc 1.5) new_Inventory).2).2) /\
  (getAllItems (addItem "Kale" 3 (Q2Qc 4.5)
                  (addItem "Apple" 50 (Q2Qc 1.5) new_Inventory).2).2).1
  = [("Apple", 50); ("Kale", 3)] /\
  forall name count,
    (name, count) ∈ [("Apple", 50); ("Kale", 3)] <->
    name ∈ ["Apple"; "Kale"] /\
    count = (getStockCount name
               (addItem "Kale" 3 (Q2Qc 4.5)
                  (addItem "Apple" 50 (Q2Qc 1.5) new_Inventory).2).2).1.
Proof.
  assert (Hwf : JSMap.wf (items (addItem "Kale" 3 (Q2Qc 4.5)
                     (addItem "Apple" 50 (Q2Qc 1.5) new_Inventory).2).2)).
  { apply (bool_decide_unpack _). vm_compute. reflexivity. }
  split; [exact Hwf|]. split; [reflexivity|].
  exact (proj1 (proj2 (proj2 (getAllItems_snapshot _ Hwf)))).
Defined.

(** C9.  [sellItem(n, q)] leaves the price map, hence every price, as it
    was, and leaves the stock of every name other than [n] as it was,
    whatever it returns; [getStockCount], [getPrice] and [getAllItems]
    return the state they were given. *)
Theorem frame_conditions (this : Inventory) (n : string) (q : Z) :
  let r := sellItem n q this in
  prices r.2 = prices this /\
  (forall name, (getPrice name r.2).1 = (getPrice name this).1) /\
  (forall name,
     name <> n -> (getStockCount name r.2).1 = (getStockCount name this).1) /\
  (forall name, (getStockCount name this).2 = this) /\
  (forall name, (getPrice name this).2 = this) /\
  (getAllItems this).2 = this.
Proof.
  intros r. subst r.
  split; [apply prices_sellItem|]. split; [|split; [|done]].
  - intros name. simpl. by rewrite prices_sellItem.
  - intros name Hne. apply (stockOf_sellItem_ne this n name q). congruence.
Qed.

(** C10.  No [addItem] or [sellItem] call, and no sequence of them,
    removes a name from the stock map; so a name passed to [addItem], with
    any quantity, is listed by [getAllItems()] after every later sequence
    of calls, and selling its whole stock then succeeds and leaves it
    listed, paired with 0. *)
Theorem names_never_shrink (this : Inventory) (c : call) (cs : list call)
    (name : string) (quantity : Z) (price : Qc) :
  JSMap.keys (items this) ⊆ JSMap.keys (items (step this c)) /\
  JSMap.keys (items this) ⊆ JSMap.keys (items (run cs this)) /\
  let s := run cs (addItem name quantity price this).2 in
  name ∈ (getAllItems s).1.*1 /\
  let r := sellItem name (getStockCount name s).1 s in
  r.1 = true /\ (getStockCount name r.2).1 = 0 /\
  (name, 0) ∈ (getAllItems r.2).1.
Proof.
  split; [intros n; apply keys_step|].
  split; [intros n; apply keys_run|].
  intros s. split.
  - subst s. simpl. apply (keys_run cs). simpl.
    apply JSMapFacts.keys_set. by left.
  - intros r. subst r. generalize s. clear. intros s.
    assert (Hr : (sellItem name (getStockCount name s).1 s).1 = true).
    { rewrite sellItem_result. apply Z.leb_le. unfold stockOf. lia. }
    split; [done|].
    pose proof (stockOf_sellItem_true _ _ _ Hr) as Hs. unfold stockOf in Hs.
    split; [rewrite Hs; lia|].
    revert Hr. unfold sellItem; simpl. case_match; [done|]. intros _. simpl.
    rewrite Z.sub_diag. apply JSMapFacts.set_elem_of_entries.
Qed.


(** * Sequences of calls from the empty inventory *)

Section Sequences.
Implicit Types (this : Inventory) (name : string) (cs : list call).

Lemma nonneg_items_get this name : nonneg_items this -> 0 <= stockOf name this.
Proof.
  unfold nonneg_items, stockOf; simpl.
  induction (items this) as [|[k v] m IH]; simpl; intros Hall; [done|].
  apply Forall_cons in Hall as [Hv Hall]. simpl in Hv.
  case_decide; [by rewrite or0_Some | by apply IH].
Qed.

Lemma nonneg_items_set (m : JSMap.t Z) name (z : Z) :
  Forall (fun kv : string * Z => 0 <= kv.2) m -> 0 <= z ->
  Forall (fun kv : string * Z => 0 <= kv.2) (JSMap.set m name z).
Proof.
  intros Hall Hz. induction m as [|[k v] m IH]; simpl.
  - by apply Forall_singleton.
  - apply Forall_cons in Hall as [Hv Hall].
    case_decide; apply Forall_cons; auto.
Qed.

Lemma nonneg_items_step this (c : call) :
  add_nonneg c = true -> nonneg_items this -> nonneg_items (step this c).
Proof.
  intros Hc Hinv. destruct c as [n q p|n q]; simpl in *.
  - apply nonneg_items_set; [done|].
    apply Z.leb_le in Hc. pose proof (nonneg_items_get this n Hinv) as Hn.
    unfold stockOf in Hn; simpl in Hn. lia.
  - unfold sellItem.
    destruct (Z.ltb_spec (or0 (JSMap.get (items this) n)) q); [done|].
    apply nonneg_items_set; [done|lia].
Qed.

Lemma nonneg_items_run cs this :
  forallb add_nonneg cs = true -> nonneg_items this ->
  nonneg_items (run cs this).
Proof.
  unfold run. revert this.
  induction cs as [|c cs IH]; intros this Hcs Hinv; simpl in *; [done|].
  apply andb_prop in Hcs as [Hc Hcs].
  by apply IH, nonneg_items_step.
Qed.

Lemma nonneg_items_new : nonneg_items new_Inventory.
Proof. constructor. Qed.

Lemma forallb_prefix {A} (f : A -> bool) (pre l : list A) :
  pre `prefix_of` l -> forallb f l = true -> forallb f pre = true.
Proof.
  intros [k ->]. rewrite forallb_app. intros H.
  by apply andb_prop in H as [? _].
Qed.

(** A name no [addItem] call has registered has no price; it has no stock
    entry either unless a [sellItem] call with a negative quantity made
    one. *)
Lemma never_added_run cs this name :
  forallb (fun c => negb (adds_name name c)) cs = true ->
  JSMap.get (prices (run cs this)) name = JSMap.get (prices this) name /\
  (forallb (sell_nonneg_on name) cs = true ->
   stockOf name this = 0 -> stockOf name (run cs this) = 0).
Proof.
  unfold run. revert this.
  induction cs as [|c cs IH]; intros this Hna; simpl in *; [done|].
  apply andb_prop in Hna as [Hc Hna].
  destruct (IH (step this c) Hna) as [IHp IHs]. split.
  - rewrite IHp. destruct c as [n q p|n q]; simpl in *.
    + apply negb_true_iff, bool_decide_eq_false in Hc.
      by apply JSMapFacts.get_set_ne.
    + by rewrite prices_sellItem.
  - intros Hsell H0. apply andb_prop in Hsell as [Hs Hsell].
    apply IHs; [done|]. destruct c as [n q p|n q]; cbn [step]; simpl in Hc, Hs.
    + apply negb_true_iff, bool_decide_eq_false in Hc.
      by rewrite stockOf_addItem_ne.
    + destruct (decide (n = name)) as [->|Hne].
      * rewrite bool_decide_true in Hs by done. simpl in Hs.
        apply Z.leb_le in Hs.
        destruct (sellItem name q this).1 eqn:Hr.
        -- rewrite stockOf_sellItem_true by done.
           rewrite sellItem_result in Hr. apply Z.leb_le in Hr. lia.
        -- by rewrite sellItem_false.
      * by rewrite stockOf_sellItem_ne.
Qed.
End Sequences.

(** The selling scenario: 50 apples, 5 sold, then a sale of 100 refused. *)
Example apple_scenario :
  let s1 := (addItem "Apple" 50 (Q2Qc 1.5) new_Inventory).2 in
  let r2 := sellItem "Apple" 5 s1 in
  let r3 := sellItem "Apple" 100 r2.2 in
  r2.1 = true /\ (getStockCount "Apple" r2.2).1 = 45 /\
  r3.1 = false /\ (getStockCount "Apple" r3.2).1 = 45.
Proof. by vm_compute. Qed.

(** C3, as stated, fails: [addItem] stores whatever quantity it is given,
    so one call with a negative quantity leaves a negative stock. *)
Lemma stock_negative_after_negative_add :
  [AddItem "Apple" (-1) (Q2Qc 1)] `prefix_of` [AddItem "Apple" (-1) (Q2Qc 1)] /\
  (getStockCount "Apple"
     (run [AddItem "Apple" (-1) (Q2Qc 1)] new_Inventory)).1 = -1 /\
  ~ 0 <= (getStockCount "Apple"
            (run [AddItem "Apple" (-1) (Q2Qc 1)] new_Inventory)).1.
Proof.
  split; [done|].
  assert (E : (getStockCount "Apple"
                 (run [AddItem "Apple" (-1) (Q2Qc 1)] new_Inventory)).1 = -1)
    by (vm_compute; reflexivity).
  split; [exact E|]. rewrite E. lia.
Qed.

(** C3, amended.  For every sequence of [addItem] and [sellItem] calls from
    the empty inventory in which every [addItem] quantity is non-negative
    ([sellItem] quantities are arbitrary), and for every name,
    [getStockCount(name)] is non-negative after every prefix of the
    sequence. *)
Theorem stock_never_negative (cs pre : list call) (name : string) :
  forallb add_nonneg cs = true ->
  pre `prefix_of` cs ->
  0 <= (getStockCount name (run pre new_Inventory)).1.
Proof.
  intros Hcs Hpre. apply (nonneg_items_get _ name).
  apply nonneg_items_run; [|apply nonneg_items_new].
  by apply (forallb_prefix _ pre cs).
Qed.

Lemma stock_never_negative_witness :
  0 <= (getStockCount "Apple"
          (run [AddItem "Apple" 50 (Q2Qc 1.5); SellItem "Apple" 5]
             new_Inventory)).1.
Proof.
  apply (stock_never_negative
           [AddItem "Apple" 50 (Q2Qc 1.5); SellItem "Apple" 5;
            SellItem "Apple" 100]
           [AddItem "Apple" 50 (Q2Qc 1.5); SellItem "Apple" 5]).
  - reflexivity.
  - by exists [SellItem "Apple" 100].
Defined.

(** C6, as stated, fails: a stock made negative by [addItem] is a reachable
    state, and there [sellItem(name, 0)] returns [false]. *)
Lemma sell_zero_fails_on_negative_stock :
  reachable (run [AddItem "Apple" (-5) (Q2Qc 1)] new_Inventory) /\
  (sellItem "Apple" 0
     (run [AddItem "Apple" (-5) (Q2Qc 1)] new_Inventory)).1 = false /\
  ~ (sellItem "Apple" 0
       (run [AddItem "Apple" (-5) (Q2Qc 1)] new_Inventory)).1 = true.
Proof.
  split; [by exists [AddItem "Apple" (-5) (Q2Qc 1)]|].
  assert (E : (sellItem "Apple" 0
                 (run [AddItem "Apple" (-5) (Q2Qc 1)] new_Inventory)).1
              = false) by (vm_compute; reflexivity).
  split; [exact E|]. rewrite E. discriminate.
Qed.

(** C6, amended.  In every state reached from the empty inventory by calls
    whose [addItem] quantities are non-negative, and for every name,
    [sellItem(name, 0)] returns [true] and leaves the stock of [name]
    unchanged. *)
Theorem sell_zero_succeeds (cs : list call) (name : string) :
  forallb add_nonneg cs = true ->
  let this := run cs new_Inventory in
  (sellItem name 0 this).1 = true /\
  (getStockCount name (sellItem name 0 this).2).1
  = (getStockCount name this).1.
Proof.
  intros Hcs this.
  assert (Hr : (sellItem name 0 this).1 = true).
  { rewrite sellItem_result. apply Z.leb_le. apply nonneg_items_get.
    apply nonneg_items_run; [done|apply nonneg_items_new]. }
  split; [done|].
  pose proof (stockOf_sellItem_true _ _ _ Hr) as Hs. unfold stockOf in Hs.
  rewrite Hs. lia.
Qed.

Lemma sell_zero_succeeds_witness :
  (sellItem "Kale" 0
     (run [AddItem "Apple" 50 (Q2Qc 1.5); SellItem "Apple" 50]
        new_Inventory)).1 = true /\
  (sellItem "Apple" 0
     (run [AddItem "Apple" 50 (Q2Qc 1.5); SellItem "Apple" 50]
        new_Inventory)).1 = true.
Proof.
  split.
  - apply (sell_zero_succeeds
             [AddItem "Apple" 50 (Q2Qc 1.5); SellItem "Apple" 50] "Kale").
    reflexivity.
  - apply (sell_zero_succeeds
             [AddItem "Apple" 50 (Q2Qc 1.5); SellItem "Apple" 50] "Apple").
    reflexivity.
Defined.

(** C7, as stated, fails: [sellItem] with a negative quantity passes the
    stock guard and records a positive stock for a name that [addItem]
    never saw. *)
Lemma unknown_name_stock_after_negative_sell :
  forallb (fun c => negb (adds_name "Ghost" c)) [SellItem "Ghost" (-5)]
  = true /\
  (getStockCount "Ghost" (run [SellItem "Ghost" (-5)] new_Inventory)).1 = 5 /\
  ~ (getStockCount "Ghost" (run [SellItem "Ghost" (-5)] new_Inventory)).1 = 0.
Proof.
  split; [reflexivity|].
  assert (E : (getStockCount "Ghost"
                 (run [SellItem "Ghost" (-5)] new_Inventory)).1 = 5)
    by (vm_compute; reflexivity).
  split; [exact E|]. rewrite E. lia.
Qed.

(** C7, amended.  For every name that was never passed to [addItem],
    [getPrice(name)] returns 0, and [getStockCount(name)] returns 0
    provided no [sellItem] call on that name carried a negative quantity;
    both queries are total functions. *)
Theorem unknown_item_defaults (cs : list call) (name : string) :
  forallb (fun c => negb (adds_name name c)) cs = true ->
  (getPrice name (run cs new_Inventory)).1 = 0%Qc /\
  (forallb (sell_nonneg_on name) cs = true ->
   (getStockCount name (run cs new_Inventory)).1 = 0).
Proof.
  intros Hna.
  destruct (never_added_run cs new_Inventory name Hna) as [Hp Hs]. split.
  - simpl. by rewrite Hp.
  - intros Hsell. by apply Hs.
Qed.

Lemma unknown_item_defaults_witness :
  (getPrice "Nonexistent"
     (run [AddItem "Apple" 50 (Q2Qc 1.5); SellItem "Nonexistent" 0;
           SellItem "Nonexistent" 3] new_Inventory)).1 = 0%Qc /\
  (getStockCount "Nonexistent"
     (run [AddItem "Apple" 50 (Q2Qc 1.5); SellItem "Nonexistent" 0;
           SellItem "Nonexistent" 3] new_Inventory)).1 = 0.
Proof.
  destruct (unknown_item_defaults
              [AddItem "Apple" 50 (Q2Qc 1.5); SellItem "Nonexistent" 0;
               SellItem "Nonexistent" 3] "Nonexistent" (reflexivity _))
    as [Hp Hs].
  split; [exact Hp|]. apply Hs. reflexivity.
Defined.

(** * The shared handle *)

Module SingletonFacts.
Import Singleton.

Lemma getInstance_idempotent (w : World) :
  let '(r1, w1) := getInstance w in getInstance w1 = (r1, w1).
Proof.
  unfold getInstance. destruct (instance w) as [r|] eqn:Hi; simpl.
  - by rewrite Hi.
  - done.
Qed.

Lemma coherent_boot : coherent (boot, []) new_Inventory.
Proof. done. Qed.

Lemma coherent_step (st : client) (inv : Inventory) (o : op) :
  coherent st inv ->
  scoped (length st.2) [o] = true ->
  exists st',
    client_step st o = Some ((model_step inv o).1, st') /\
    coherent st' (model_step inv o).2 /\
    length st'.2 = (match o with
                    | GetInstance => S (length st.2)
                    | Call _ _ => length st.2
                    end).
Proof.
  destruct st as [w hs]. unfold coherent; simpl. intros Hco Hsc.
  destruct o as [|h m]; simpl.
  - unfold getInstance. destruct (instance w) as [r|] eqn:Hi.
    + destruct Hco as [Hobj Hall]. eexists; split; [done|]. simpl.
      rewrite Hi. split; [|by rewrite length_app, Nat.add_1_r].
      split; [done|]. apply Forall_app. split; [done|]. by apply Forall_singleton.
    + destruct Hco as [-> ->]. eexists; split; [done|]. simpl.
      split; [|done]. split.
      * by rewrite lookup_app_r, Nat.sub_diag.
      * by apply Forall_singleton.
  - apply andb_prop in Hsc as [Hh _]. apply Nat.ltb_lt in Hh.
    destruct (lookup_lt_is_Some_2 hs h Hh) as [r Hr]. rewrite Hr.
    destruct (instance w) as [r0|] eqn:Hi.
    + destruct Hco as [Hobj Hall].
      assert (r0 = r) as ->.
      { rewrite Forall_forall in Hall. apply Hall.
        by apply list_elem_of_lookup_2 in Hr. }
      unfold invoke. rewrite Hobj.
      destruct (exec m inv) as [res inv'] eqn:He. simpl.
      eexists; split; [done|]. simpl. rewrite Hi. split; [|done].
      split; [|done]. apply list_lookup_insert_eq.
      by apply lookup_lt_Some in Hobj.
    + destruct Hco as [-> _]. simpl in Hh. lia.
Qed.

Lemma coherent_run (os : list op) (st : client) (inv : Inventory) :
  coherent st inv ->
  scoped (length st.2) os = true ->
  exists st',
    client_run os st = Some ((model_run os inv).1, st') /\
    coherent st' (model_run os inv).2.
Proof.
  revert st inv. induction os as [|o os IH]; intros st inv Hco Hsc.
  - exists st. by split.
  - assert (Ho : scoped (length st.2) [o] = true).
    { destruct o; simpl in *; [done|].
      apply andb_prop in Hsc as [-> _]. done. }
    destruct (coherent_step st inv o Hco Ho) as (st1 & Hstep & Hco1 & Hlen).
    destruct (IH st1 (model_step inv o).2 Hco1) as (st2 & Hrun & Hco2).
    { rewrite Hlen. destruct o; simpl in *; [done|].
      by apply andb_prop in Hsc as [_ ->]. }
    exists st2. simpl. rewrite Hstep, Hrun.
    destruct (model_step inv o) as [res inv1]; simpl in *.
    by destruct (model_run os inv1).
Qed.
Lemma scoped_prefix (n : nat) (pre os : list op) :
  pre `prefix_of` os -> scoped n os = true -> scoped n pre = true.
Proof.
  intros [k ->]. revert n.
  induction pre as [|o pre IH]; intros n; simpl; [done|].
  destruct o as [|h m]; [apply IH|].
  intros Hsc. apply andb_prop in Hsc as [-> Hsc]. by apply IH.
Qed.

(** C1.  A client program obtains handles with [Inventory.getInstance()]
    at any points and issues add, sell and query calls through any handle
    it holds.  After every prefix of the program the results observed so
    far are those of the same operations applied to one reference mapping,
    all handles obtained are one and the same reference, and the object
    behind every handle is the reference mapping's current state. *)
Theorem shared_state (os pre : list op) :
  scoped 0 os = true ->
  pre `prefix_of` os ->
  exists (w : World) (hs : list ref),
    client_run pre (boot, [])
    = Some ((model_run pre new_Inventory).1, (w, hs)) /\
    (forall h1 h2, h1 ∈ hs -> h2 ∈ hs -> h1 = h2) /\
    (forall h, h ∈ hs -> heap w !! h = Some (model_run pre new_Inventory).2).
Proof.
  intros Hsc Hpre. apply (scoped_prefix 0 pre os Hpre) in Hsc.
  destruct (coherent_run pre (boot, []) new_Inventory coherent_boot Hsc)
    as ([w hs] & Hrun & Hco).
  exists w, hs. split; [exact Hrun|].
  unfold coherent in Hco; simpl in Hco.
  destruct (instance w) as [r|].
  - destruct Hco as [Hobj Hall]. rewrite Forall_forall in Hall. split.
    + intros h1 h2 H1 H2. by rewrite <- (Hall h1 H1), <- (Hall h2 H2).
    + intros h Hh. by rewrite <- (Hall h Hh).
  - destruct Hco as [-> _].
    split; [intros h1 h2 H1|intros h H1]; by apply elem_of_nil in H1.
Qed.

Lemma shared_state_witness :
  exists (w : World) (hs : list ref),
    client_run
      [GetInstance; Call 0 (MAddItem "Orange" 30 (Q2Qc 2)); GetInstance;
       Call 1 (MGetStockCount "Orange")] (boot, [])
    = Some ((model_run
               [GetInstance; Call 0 (MAddItem "Orange" 30 (Q2Qc 2));
                GetInstance; Call 1 (MGetStockCount "Orange")]
               new_Inventory).1, (w, hs)) /\
    (forall h1 h2, h1 ∈ hs -> h2 ∈ hs -> h1 = h2) /\
    (forall h, h ∈ hs ->
       heap w !! h
       = Some (model_run
                 [GetInstance; Call 0 (MAddItem "Orange" 30 (Q2Qc 2));
                  GetInstance; Call 1 (MGetStockCount "Orange")]
                 new_Inventory).2).
Proof.
  apply (shared_state
           [GetInstance; Call 0 (MAddItem "Orange" 30 (Q2Qc 2)); GetInstance;
            Call 1 (MGetStockCount "Orange"); Call 0 (MSellItem "Orange" 40)]).
  - reflexivity.
  - by exists [Call 0 (MSellItem "Orange" 40)].
Defined.

(** The scenario of the source's usage comment: stock added through one
    handle is read through another. *)
Example two_handles_scenario :
  client_run
    [GetInstance; Call 0 (MAddItem "Apple" 50 (Q2Qc 1.5)); GetInstance;
     Call 1 (MAddItem "Orange" 30 (Q2Qc 2));
     Call 0 (MGetStockCount "Orange"); Call 1 (MGetStockCount "Apple")]
    (boot, [])
  = Some ([RHandle; RVoid; RHandle; RVoid; RNumber 30; RNumber 50],
          ({| heap := [ {| items := [("Apple", 50); ("Orange", 30)];
                           prices := [("Apple", Q2Qc 1.5);
                                       ("Orange", Q2Qc 2)] |} ];
              instance := Some 0%nat |}, [0%nat; 0%nat])).
Proof. reflexivity. Qed.
End SingletonFacts.

(** * Further properties of the inventory *)

Section MoreJSMap.
Context {V : Type}.
Implicit Types (m : JSMap.t V) (k : string) (v : V).

Lemma set_present m k v :
  k ∈ JSMap.keys m -> JSMap.keys (JSMap.set m k v) = JSMap.keys m.
Proof.
  unfold JSMap.keys. induction m as [|[k0 v0] m IH]; simpl; intros Hin.
  - by apply elem_of_nil in Hin.
  - destruct (decide (k = k0)) as [->|Hne]; simpl; [done|].
    apply elem_of_cons in Hin as [?|Hin]; [done|]. f_equal. by apply IH.
Qed.

Lemma set_absent m k v : k ∉ JSMap.keys m -> JSMap.set m k v = m ++ [(k, v)].
Proof.
  unfold JSMap.keys. induction m as [|[k0 v0] m IH]; simpl; intros Hnotin.
  - done.
  - apply not_elem_of_cons in Hnotin as [Hne Hnotin].
    rewrite decide_False by done. by rewrite IH.
Qed.

End MoreJSMap.

(** [addItem] on a registered name keeps the order in which
    [getAllItems()] lists the names; on a new name it lists the name
    last.  The listing order is the order of first registration. *)
Theorem addItem_listing_order (this : Inventory) (name : string)
    (quantity : Z) (price : Qc) :
  (getAllItems (addItem name quantity price this).2).1.*1
  = if bool_decide (name ∈ (getAllItems this).1.*1)
    then (getAllItems this).1.*1
    else (getAllItems this).1.*1 ++ [name].
Proof.
  simpl. unfold JSMap.entries. fold (JSMap.keys (items this)).
  case_bool_decide as Hin.
  - by apply set_present.
  - rewrite set_absent by done. by rewrite fmap_app.
Qed.

(** Every name that has a recorded price also has a stock entry, after
    any sequence of calls from the empty inventory. *)
Theorem priced_names_are_stocked (cs : list call) :
  JSMap.keys (prices (run cs new_Inventory))
  ⊆ JSMap.keys (items (run cs new_Inventory)).
Proof.
  unfold run.
  assert (Hnew : JSMap.keys (prices new_Inventory)
                 ⊆ JSMap.keys (items new_Inventory)) by done.
  revert Hnew. generalize new_Inventory.
  induction cs as [|c cs IH]; intros s Hs; simpl; [done|].
  apply (IH (step s c)).
  intros n. destruct c as [n0 q p|n0 q]; simpl.
  - rewrite !JSMapFacts.keys_set. intros [->|Hin]; [by left|right; by apply Hs].
  - rewrite prices_sellItem. intros Hin. apply (keys_step s (SellItem n0 q)).
    by apply Hs.
Qed.

(** [sellItem] on a name without a stock entry fails for a positive
    quantity and leaves the state alone; for a quantity of 0 or less it
    succeeds and creates a stock entry (listed last, without a price)
    holding the negated quantity. *)
Theorem sellItem_unknown_name (this : Inventory) (name : string)
    (quantity : Z) :
  name ∉ JSMap.keys (items this) ->
  sellItem name quantity this
  = if 0 <? quantity then (false, this)
    else (true, {| items := items this ++ [(name, - quantity)];
                   prices := prices this |}).
Proof.
  intros Habs. unfold sellItem.
  rewrite (proj2 (JSMapFacts.get_None_keys _ _) Habs). simpl.
  case_match; [done|]. by rewrite set_absent, Z.sub_0_l.
Qed.

Lemma sellItem_unknown_name_witness :
  sellItem "Ghost" 0 (run [AddItem "Apple" 50 (Q2Qc 1.5)] new_Inventory)
  = (true, {| items := [("Apple", 50); ("Ghost", 0)];
              prices := [("Apple", Q2Qc 1.5)] |}).
Proof.
  apply (sellItem_unknown_name
           (run [AddItem "Apple" 50 (Q2Qc 1.5)] new_Inventory) "Ghost" 0).
  apply (bool_decide_unpack _). vm_compute. reflexivity.
Defined.






Lemma get_items_step_ne (this : Inventory) (c : call) (name : string) :
  call_name c <> name ->
  JSMap.get (items (step this c)) name = JSMap.get (items this) name.
Proof.
  intros Hne. destruct c as [n q p|n q]; simpl in *.
  - by apply JSMapFacts.get_set_ne.
  - unfold sellItem. case_match; [done|]. simpl.
    by apply JSMapFacts.get_set_ne.
Qed.

Lemma get_prices_step_ne (this : Inventory) (c : call) (name : string) :
  call_name c <> name ->
  JSMap.get (prices (step this c)) name = JSMap.get (prices this) name.
Proof.
  intros Hne. destruct c as [n q p|n q]; simpl in *.
  - by apply JSMapFacts.get_set_ne.
  - by rewrite prices_sellItem.
Qed.

(** What a call does to the entries of its own name depends on those
    entries only. *)
Lemma step_own_name (s1 s2 : Inventory) (c : call) :
  JSMap.get (items s1) (call_name c) = JSMap.get (items s2) (call_name c) ->
  JSMap.get (prices s1) (call_name c) = JSMap.get (prices s2) (call_name c) ->
  JSMap.get (items (step s1 c)) (call_name c)
  = JSMap.get (items (step s2 c)) (call_name c) /\
  JSMap.get (prices (step s1 c)) (call_name c)
  = JSMap.get (prices (step s2 c)) (call_name c).
Proof.
  intros Hi Hp. destruct c as [n q p|n q]; simpl in *.
  - by rewrite !JSMapFacts.get_set_eq, Hi.
  - rewrite !prices_sellItem. split; [|done].
    unfold sellItem. rewrite Hi. case_match; simpl; [done|].
    by rewrite !JSMapFacts.get_set_eq.
Qed.

(** Calls about different names commute as far as the queries can tell:
    whichever of the two runs first, every name ends up with the same
    stock and the same price.  (Only the listing order of [getAllItems()]
    can tell the two orders apart.) *)
Theorem calls_on_distinct_names_commute (this : Inventory) (c1 c2 : call)
    (name : string) :
  call_name c1 <> call_name c2 ->
  (getStockCount name (step (step this c1) c2)).1
  = (getStockCount name (step (step this c2) c1)).1 /\
  (getPrice name (step (step this c1) c2)).1
  = (getPrice name (step (step this c2) c1)).1.
Proof.
  intros Hne. simpl.
  cut (JSMap.get (items (step (step this c1) c2)) name
       = JSMap.get (items (step (step this c2) c1)) name /\
       JSMap.get (prices (step (step this c1) c2)) name
       = JSMap.get (prices (step (step this c2) c1)) name).
  { by intros [-> ->]. }
  destruct (decide (call_name c1 = name)) as [<-|H1].
  - rewrite get_items_step_ne, get_prices_step_ne by done.
    apply step_own_name; symmetry.
    + by apply get_items_step_ne.
    + by apply get_prices_step_ne.
  - rewrite (get_items_step_ne (step this c2) c1),
      (get_prices_step_ne (step this c2) c1) by done.
    destruct (decide (call_name c2 = name)) as [<-|H2].
    + apply step_own_name.
      * by apply get_items_step_ne.
      * by apply get_prices_step_ne.
    + by rewrite !get_items_step_ne, !get_prices_step_ne.
Qed.

Lemma calls_on_distinct_names_commute_witness :
  (getStockCount "Apple"
     (step (step new_Inventory (AddItem "Apple" 50 (Q2Qc 1.5)))
        (SellItem "Kale" 0))).1
  = (getStockCount "Apple"
       (step (step new_Inventory (SellItem "Kale" 0))
          (AddItem "Apple" 50 (Q2Qc 1.5)))).1 /\
  (getPrice "Apple"
     (step (step new_Inventory (AddItem "Apple" 50 (Q2Qc 1.5)))
        (SellItem "Kale" 0))).1
  = (getPrice "Apple"
       (step (step new_Inventory (SellItem "Kale" 0))
          (AddItem "Apple" 50 (Q2Qc 1.5)))).1.
Proof.
  apply (calls_on_distinct_names_commute new_Inventory
           (AddItem "Apple" 50 (Q2Qc 1.5)) (SellItem "Kale" 0) "Apple").
  simpl. discriminate.
Defined.

Module SingletonMore.
Import Singleton.

Lemma one_object_step (st st' : client) (o : op) (res : result) :
  client_step st o = Some (res, st') -> one_object st -> one_object st'.
Proof.
  destruct st as [w hs]. unfold one_object; simpl. intros Hstep Hinv.
  destruct o as [|h m]; simpl in Hstep.
  - unfold getInstance in Hstep. destruct (instance w) as [r|] eqn:Hi.
    + injection Hstep as <- <-. simpl. rewrite Hi.
      destruct Hinv as (-> & Hlen & Hne & Hall).
      repeat split; [done|by destruct hs|].
      apply Forall_app. split; [done|]. by apply Forall_singleton.
    + injection Hstep as <- <-. simpl. destruct Hinv as [-> ->]. simpl.
      repeat split; [done|]. by apply Forall_singleton.
  - destruct (hs !! h) as [r|] eqn:Hh; [|done]. unfold invoke in Hstep.
    destruct (heap w !! r) as [obj|]; [|done].
    destruct (exec m obj) as [a obj']. injection Hstep as <- <-. simpl.
    destruct (instance w); [by rewrite length_insert|].
    destruct Hinv as [_ ->]. done.
Qed.

Lemma one_object_run (os : list op) (st st' : client) (tr : list result) :
  client_run os st = Some (tr, st') -> one_object st -> one_object st'.
Proof.
  revert st tr. induction os as [|o os IH]; intros st tr; simpl.
  - by intros [= _ <-].
  - destruct (client_step st o) as [[res st1]|] eqn:Hstep; [|done].
    destruct (client_run os st1) as [[ress st2]|] eqn:Hrun; [|done].
    intros [= _ <-] Hinv. apply (IH st1 ress Hrun).
    by apply (one_object_step st st1 o res).
Qed.

(** [getInstance] constructs an [Inventory] on its first call only: after
    a client program has run, the heap holds one object if the program
    called [getInstance] at all and none otherwise, and every handle the
    client holds is the reference of that one object. *)
Theorem at_most_one_instance (os : list op) :
  scoped 0 os = true ->
  exists (tr : list result) (w : World) (hs : list ref),
    client_run os (boot, []) = Some (tr, (w, hs)) /\
    length (heap w) = Nat.min 1 (length hs) /\
    hs = replicate (length (filter is_GetInstance os)) 0%nat.
Proof.
  intros Hsc.
  destruct (SingletonFacts.coherent_run os (boot, []) new_Inventory
              SingletonFacts.coherent_boot Hsc) as ([w hs] & Hrun & _).
  exists (model_run os new_Inventory).1, w, hs. split; [exact Hrun|].
  assert (Hone : one_object (w, hs)).
  { apply (one_object_run os (boot, []) (w, hs) _ Hrun). by split. }
  assert (Hlen : length hs = length (filter is_GetInstance os)).
  { clear Hone Hsc. change hs with (w, hs).2.
    transitivity (length (boot, @nil ref).2
                  + length (filter is_GetInstance os))%nat;
      [|done].
    revert Hrun. generalize (model_run os new_Inventory).1.
    generalize (boot, @nil ref). generalize (w, hs).
    induction os as [|o os IH]; intros st' st tr; simpl.
    - intros [= _ <-]. lia.
    - destruct (client_step st o) as [[res st1]|] eqn:Hstep; [|done].
      destruct (client_run os st1) as [[ress st2]|] eqn:Hrun; [|done].
      intros [= _ <-]. rewrite (IH _ _ _ Hrun).
      destruct o as [|h m]; simpl in Hstep.
      + destruct (getInstance st.1) as [r w1]. injection Hstep as _ <-.
        simpl. rewrite length_app. simpl. lia.
      + simpl. destruct (st.2 !! h); [|done].
        destruct (invoke _ _ _) as [[? ?]|]; [|done].
        by injection Hstep as _ <-. }
  unfold one_object in Hone; simpl in Hone.
  destruct (instance w) as [r|].
  - destruct Hone as (_ & Hheap & Hne & Hall). split.
    + rewrite Hheap. destruct hs; [done|]. simpl. lia.
    + rewrite <- Hlen. clear -Hall.
      induction Hall as [|h hs <- _ IH]; simpl; [done|]. by rewrite <- IH.
  - destruct Hone as [-> ->]. simpl in *. by rewrite <- Hlen.
Qed.

Lemma at_most_one_instance_witness :
  exists (tr : list result) (w : World) (hs : list ref),
    client_run
      [GetInstance; Call 0 (MAddItem "Orange" 30 (Q2Qc 2)); GetInstance;
       GetInstance; Call 2 (MGetStockCount "Orange")] (boot, [])
    = Some (tr, (w, hs)) /\
    length (heap w) = Nat.min 1 (length hs) /\
    hs = replicate 3 0%nat.
Proof.
  apply (at_most_one_instance
           [GetInstance; Call 0 (MAddItem "Orange" 30 (Q2Qc 2)); GetInstance;
            GetInstance; Call 2 (MGetStockCount "Orange")]).
  reflexivity.
Defined.
End SingletonMore.

(** * Objects of the class without the Singleton pattern *)

Module SeparateFacts.
Import Separate.

Lemma isolation_from (os : list op) (h : Heap) :
  scoped (length h) os = true ->
  exists (tr : list Singleton.result) (h' : Heap),
    client_run os (h, seq 0 (length h)) = Some (tr, (h', seq 0 (length h'))) /\
    forall i, (i < length h')%nat ->
      h' !! i
      = Some (private_run (calls_of i os) (default new_Inventory (h !! i))).2 /\
      results_of i os tr
      = (private_run (calls_of i os) (default new_Inventory (h !! i))).1.
Proof.
  revert h. induction os as [|o os IH]; intros h Hsc.
  - exists [], h. split; [done|]. intros i Hi.
    destruct (lookup_lt_is_Some_2 h i Hi) as [x Hx]. by rewrite Hx.
  - destruct o as [|k m]; simpl in Hsc.
    + destruct (IH (h ++ [new_Inventory])) as (tr & h' & Hrun & Hobs).
      { by rewrite length_app, Nat.add_1_r. }
      exists (Singleton.RHandle :: tr), h'. split.
      * simpl. rewrite length_app, Nat.add_1_r, seq_S in Hrun. simpl in Hrun.
        by rewrite Hrun.
      * intros i Hi. specialize (Hobs i Hi). simpl.
        replace (default new_Inventory (h !! i))
          with (default new_Inventory ((h ++ [new_Inventory]) !! i)); [done|].
        destruct (decide (i < length h)%nat) as [Hlt|Hge].
        -- by rewrite lookup_app_l.
        -- rewrite lookup_app_r, (lookup_ge_None_2 h i) by lia.
           by destruct (i - length h)%nat as [|[|?]].
    + apply andb_prop in Hsc as [Hk Hsc]. apply Nat.ltb_lt in Hk.
      destruct (lookup_lt_is_Some_2 h k Hk) as [obj Hobj].
      destruct (exec m obj) as [res obj'] eqn:He.
      destruct (IH (<[k := obj']> h)) as (tr & h' & Hrun & Hobs).
      { by rewrite length_insert. }
      rewrite length_insert in Hrun.
      exists (res :: tr), h'. split.
      * simpl. rewrite lookup_seq_lt by done. simpl. rewrite Hobj, He.
        by rewrite Hrun.
      * intros i Hi. specialize (Hobs i Hi). simpl.
        destruct (decide (k = i)) as [->|Hne].
        -- rewrite list_lookup_insert_eq in Hobs by done. simpl in Hobs.
           rewrite Hobj. simpl. rewrite He.
           destruct (private_run (calls_of i os) obj') as [ress fin].
           simpl in *. destruct Hobs as [-> ->]. done.
        -- by rewrite list_lookup_insert_ne in Hobs.
Qed.

(** Objects made by [new Inventory()] share nothing: in any client
    program every [new] yields a reference of its own, and each object's
    final state and the results of the calls made on it are those of
    running just these calls on a private, freshly constructed inventory,
    whatever the program did to the other objects in between. *)
Theorem separate_instances_isolated (os : list op) (i : nat) :
  scoped 0 os = true ->
  exists (tr : list Singleton.result) (h : Heap) (hs : list ref),
    client_run os ([], []) = Some (tr, (h, hs)) /\
    NoDup hs /\ length hs = length h /\
    ((i < length hs)%nat ->
     h !! i = Some (private_run (calls_of i os) new_Inventory).2 /\
     hs !! i = Some i /\
     results_of i os tr = (private_run (calls_of i os) new_Inventory).1).
Proof.
  intros Hsc. destruct (isolation_from os [] Hsc) as (tr & h & Hrun & Hobs).
  exists tr, h, (seq 0 (length h)). split; [exact Hrun|].
  split; [apply NoDup_seq|]. rewrite length_seq. split; [done|].
  intros Hi. destruct (Hobs i Hi) as [Hh Hr]. simpl in *.
  split; [done|]. split; [|done]. by rewrite lookup_seq_lt.
Qed.

Lemma separate_instances_isolated_witness :
  exists (tr : list Singleton.result) (h : Heap) (hs : list ref),
    client_run
      [New; Call 0 (MAddItem "Apple" 50 (Q2Qc 1.5)); New;
       Call 1 (MAddItem "Orange" 30 (Q2Qc 2));
       Call 0 (MGetStockCount "Orange")] ([], [])
    = Some (tr, (h, hs)) /\
    NoDup hs /\ length hs = length h /\
    ((0 < length hs)%nat ->
     h !! 0%nat
     = Some (private_run
               [MAddItem "Apple" 50 (Q2Qc 1.5); MGetStockCount "Orange"]
               new_Inventory).2 /\
     hs !! 0%nat = Some 0%nat /\
     results_of 0
       [New; Call 0 (MAddItem "Apple" 50 (Q2Qc 1.5)); New;
        Call 1 (MAddItem "Orange" 30 (Q2Qc 2));
        Call 0 (MGetStockCount "Orange")] tr
     = [Singleton.RVoid; Singleton.RNumber 0]).
Proof.
  apply (separate_instances_isolated
           [New; Call 0 (MAddItem "Apple" 50 (Q2Qc 1.5)); New;
            Call 1 (MAddItem "Orange" 30 (Q2Qc 2));
            Call 0 (MGetStockCount "Orange")] 0).
  reflexivity.
Defined.
End SeparateFacts.


(** * The demo page *)

Module DemoFacts.
Import Singleton.
Section DemoFacts.
Variable show_count : Z -> string.
Variable show_price : Qc -> string.

Local Abbreviation handleAddItem := (Demo.handleAddItem show_count show_price).
Local Abbreviation handleSellItem := (Demo.handleSellItem show_count).
Local Abbreviation handleCheckStock :=
  (Demo.handleCheckStock show_count show_price).
Local Abbreviation handleShowAllItems :=
  (Demo.handleShowAllItems show_count show_price).
Local Abbreviation showItem := (Demo.showItem show_count show_price).
Local Abbreviation dispatch := (Demo.dispatch show_count show_price).
Local Abbreviation session := (Demo.session show_count show_price).

Lemma getInstance_live (w w1 : World) (r : ref) :
  getInstance w = (r, w1) -> Demo.live w ->
  instance w1 = Some r /\ Demo.live w1 /\
  Demo.inventory_of w1 = Demo.inventory_of w.
Proof.
  unfold getInstance, Demo.live, Demo.inventory_of.
  destruct (instance w) as [r0|] eqn:Hi.
  - intros [= <- <-] Hlive. by rewrite Hi.
  - intros [= <- <-] _. simpl. rewrite length_app. simpl.
    split; [done|]. split; [lia|].
    by rewrite lookup_app_r, Nat.sub_diag.
Qed.

Lemma invoke_live {A : Type} (m : Inventory -> A * Inventory) (w : World)
    (r : ref) :
  instance w = Some r -> Demo.live w ->
  exists w2,
    invoke r m w = Some ((m (Demo.inventory_of w)).1, w2) /\
    instance w2 = Some r /\ Demo.live w2 /\
    Demo.inventory_of w2 = (m (Demo.inventory_of w)).2.
Proof.
  unfold Demo.live, Demo.inventory_of, invoke. intros Hi. rewrite Hi.
  intros Hlt. destruct (heap w !! r) as [obj|] eqn:Hobj.
  2: { apply lookup_ge_None in Hobj. lia. }
  simpl. destruct (m obj) as [a obj'].
  eexists. split; [done|]. simpl. rewrite length_insert.
  split; [done|]. split; [done|].
  rewrite list_lookup_insert_eq; [done|]. by apply lookup_lt_Some in Hobj.
Qed.

Lemma showItem_fold (r : ref) (entries : list (string * Z)) (w : World)
    (ui : Demo.State) :
  instance w = Some r -> Demo.live w ->
  exists w',
    foldl (showItem r) (Some (w, ui)) entries
    = Some (w',
            {| Demo.logs :=
                 Demo.logs ui
                 ++ ((fun entry : string * Z =>
                        "- " +:+ entry.1 +:+ ": " +:+ show_count entry.2
                        +:+ " in stock at $"
                        +:+ show_price
                              (getPrice entry.1 (Demo.inventory_of w)).1
                        +:+ " each") <$> entries);
               Demo.itemName := Demo.itemName ui;
               Demo.quantity := Demo.quantity ui;
               Demo.price := Demo.price ui;
               Demo.sellQuantity := Demo.sellQuantity ui |}) /\
    instance w' = Some r /\ Demo.live w' /\
    Demo.inventory_of w' = Demo.inventory_of w.
Proof.
  revert w ui. induction entries as [|[name count] entries IH];
    intros w ui Hi Hlive.
  - exists w. simpl. rewrite app_nil_r. by destruct ui.
  - destruct (invoke_live (getPrice name) w r Hi Hlive)
      as (w1 & Hinv & Hi1 & Hlive1 & Hinv1).
    simpl in Hinv1. cbn [foldl Demo.showItem]. rewrite Hinv.
    destruct (IH w1 (Demo.appendLog
                       ("- " +:+ name +:+ ": " +:+ show_count count
                        +:+ " in stock at $"
                        +:+ show_price
                              (getPrice name (Demo.inventory_of w)).1
                        +:+ " each") ui) Hi1 Hlive1)
      as (w' & Hfold & Hi' & Hlive' & Hinv').
    exists w'. rewrite Hfold. split; [|by rewrite Hinv', Hinv1].
    f_equal. f_equal. simpl. rewrite Hinv1.
    by rewrite <- app_assoc.
Qed.

(** A click on "Add to Inventory" with a name typed in performs
    [addItem(itemName, quantity, price)] on the singleton, logs one line
    and resets the name, quantity and price fields to their initial
    values; the sell quantity field is kept. *)
Theorem handleAddItem_effect (w : World) (ui : Demo.State) :
  Demo.live w -> Demo.itemName ui <> "" ->
  exists w',
    handleAddItem (w, ui)
    = Some (w',
            {| Demo.logs :=
                 Demo.logs ui
                 ++ ["Added " +:+ show_count (Demo.quantity ui) +:+ " "
                     +:+ Demo.itemName ui +:+ "(s) at $"
                     +:+ show_price (Demo.price ui)
                     +:+ " each to inventory"];
               Demo.itemName := "";
               Demo.quantity := 1;
               Demo.price := Q2Qc 0.99;
               Demo.sellQuantity := Demo.sellQuantity ui |}) /\
    Demo.live w' /\
    Demo.inventory_of w'
    = (addItem (Demo.itemName ui) (Demo.quantity ui) (Demo.price ui)
         (Demo.inventory_of w)).2.
Proof.
  intros Hlive Hname. unfold Demo.handleAddItem.
  rewrite decide_False by done.
  destruct (getInstance w) as [r w1] eqn:Hg.
  destruct (getInstance_live w w1 r Hg Hlive) as (Hi1 & Hlive1 & Hinv1).
  destruct (invoke_live
              (addItem (Demo.itemName ui) (Demo.quantity ui) (Demo.price ui))
              w1 r Hi1 Hlive1) as (w2 & Hcall & _ & Hlive2 & Hinv2).
  rewrite Hcall. exists w2. rewrite Hinv2, Hinv1. by split.
Qed.

(** A click on "Sell" with a name typed in performs
    [sellItem(itemName, sellQuantity)] on the singleton and logs one
    line: the "Sold" line exactly when the stock covered the quantity,
    the "Failed to sell" line otherwise.  It resets the sell quantity to 1
    and keeps the name, so a second click sells again. *)
Theorem handleSellItem_effect (w : World) (ui : Demo.State) :
  Demo.live w -> Demo.itemName ui <> "" ->
  exists w',
    handleSellItem (w, ui)
    = Some (w',
            {| Demo.logs :=
                 Demo.logs ui
                 ++ [if Demo.sellQuantity ui
                        <=? (getStockCount (Demo.itemName ui)
                               (Demo.inventory_of w)).1
                     then "Sold " +:+ show_count (Demo.sellQuantity ui)
                          +:+ " " +:+ Demo.itemName ui +:+ "(s)"
                     else "Failed to sell "
                          +:+ show_count (Demo.sellQuantity ui) +:+ " "
                          +:+ Demo.itemName ui
                          +:+ "(s) - insufficient stock"];
               Demo.itemName := Demo.itemName ui;
               Demo.quantity := Demo.quantity ui;
               Demo.price := Demo.price ui;
               Demo.sellQuantity := 1 |}) /\
    Demo.live w' /\
    Demo.inventory_of w'
    = (sellItem (Demo.itemName ui) (Demo.sellQuantity ui)
         (Demo.inventory_of w)).2.
Proof.
  intros Hlive Hname. unfold Demo.handleSellItem.
  rewrite decide_False by done.
  destruct (getInstance w) as [r w1] eqn:Hg.
  destruct (getInstance_live w w1 r Hg Hlive) as (Hi1 & Hlive1 & Hinv1).
  destruct (invoke_live
              (sellItem (Demo.itemName ui) (Demo.sellQuantity ui))
              w1 r Hi1 Hlive1) as (w2 & Hcall & _ & Hlive2 & Hinv2).
  rewrite Hcall. exists w2. rewrite Hinv2, Hinv1. split; [|done].
  rewrite sellItem_result. unfold stockOf.
  by destruct (_ <=? _).
Qed.

(** A click on "Check Stock" with a name typed in logs one line with the
    stock and the price of that name and leaves the inventory and the
    form as they were. *)
Theorem handleCheckStock_effect (w : World) (ui : Demo.State) :
  Demo.live w -> Demo.itemName ui <> "" ->
  exists w',
    handleCheckStock (w, ui)
    = Some (w',
            Demo.appendLog
              ("Stock check: "
               +:+ show_count
                     (getStockCount (Demo.itemName ui)
                        (Demo.inventory_of w)).1
               +:+ " " +:+ Demo.itemName ui +:+ "(s) available at $"
               +:+ show_price
                     (getPrice (Demo.itemName ui) (Demo.inventory_of w)).1
               +:+ " each") ui) /\
    Demo.live w' /\ Demo.inventory_of w' = Demo.inventory_of w.
Proof.
  intros Hlive Hname. unfold Demo.handleCheckStock.
  rewrite decide_False by done.
  destruct (getInstance w) as [r w1] eqn:Hg.
  destruct (getInstance_live w w1 r Hg Hlive) as (Hi1 & Hlive1 & Hinv1).
  destruct (invoke_live (getStockCount (Demo.itemName ui)) w1 r Hi1 Hlive1)
    as (w2 & Hcall2 & Hi2 & Hlive2 & Hinv2).
  destruct (invoke_live (getPrice (Demo.itemName ui)) w2 r Hi2 Hlive2)
    as (w3 & Hcall3 & Hi3 & Hlive3 & Hinv3).
  rewrite Hcall2, Hcall3. exists w3. simpl in *.
  rewrite Hinv3, Hinv2, Hinv1. by split.
Qed.

(** A click on "Show All Items" logs the single line "Inventory is empty"
    when no name is registered; otherwise it logs the header line and
    then one line per registered name, in the listing order of
    [getAllItems()], each with the name's stock and current price.  The
    inventory and the form are left as they were. *)
Theorem handleShowAllItems_effect (w : World) (ui : Demo.State) :
  Demo.live w ->
  exists w',
    handleShowAllItems (w, ui)
    = Some (w',
            {| Demo.logs :=
                 Demo.logs ui
                 ++ (if decide ((getAllItems (Demo.inventory_of w)).1 = [])
                     then ["Inventory is empty"]
                     else
                       "Current inventory:"
                       :: ((fun entry : string * Z =>
                              "- " +:+ entry.1 +:+ ": "
                              +:+ show_count entry.2
                              +:+ " in stock at $"
                              +:+ show_price
                                    (getPrice entry.1
                                       (Demo.inventory_of w)).1
                              +:+ " each")
                           <$> (getAllItems (Demo.inventory_of w)).1));
               Demo.itemName := Demo.itemName ui;
               Demo.quantity := Demo.quantity ui;
               Demo.price := Demo.price ui;
               Demo.sellQuantity := Demo.sellQuantity ui |}) /\
    Demo.live w' /\ Demo.inventory_of w' = Demo.inventory_of w.
Proof.
  intros Hlive. unfold Demo.handleShowAllItems.
  destruct (getInstance w) as [r w1] eqn:Hg.
  destruct (getInstance_live w w1 r Hg Hlive) as (Hi1 & Hlive1 & Hinv1).
  destruct (invoke_live getAllItems w1 r Hi1 Hlive1)
    as (w2 & Hcall & Hi2 & Hlive2 & Hinv2).
  rewrite Hcall. simpl in Hinv2. simpl. rewrite Hinv1 in *.
  destruct (JSMap.entries (items (Demo.inventory_of w))) as [|e es] eqn:Hes.
  - exists w2. simpl. by rewrite Hinv2.
  - rewrite decide_False by done. rewrite decide_False by done.
    destruct (showItem_fold r (e :: es) w2
                (Demo.appendLog "Current inventory:" ui) Hi2 Hlive2)
      as (w' & Hfold & _ & Hlive' & Hinv').
    exists w'. rewrite Hfold. split; [|by rewrite Hinv', Hinv2].
    f_equal. f_equal. simpl. rewrite Hinv2. by rewrite <- app_assoc.
Qed.

(** After a click on "Add to Inventory" a second click without typing
    anything in between changes nothing: the first click cleared the name
    field, or there was no name to begin with. *)
Theorem handleAddItem_twice (app app' : Demo.App) :
  handleAddItem app = Some app' -> handleAddItem app' = Some app'.
Proof.
  destruct app as [w ui]. unfold Demo.handleAddItem at 1.
  destruct (decide (Demo.itemName ui = "")) as [Hempty|Hname].
  - intros [= <-]. unfold Demo.handleAddItem. by rewrite decide_True.
  - destruct (getInstance w) as [r w1].
    destruct (invoke _ _ _) as [[[] w2]|]; [|done].
    intros [= <-]. unfold Demo.handleAddItem. by rewrite decide_True.
Qed.

Lemma prefix_of_app_r (l k : list string) : l `prefix_of` l ++ k.
Proof. by exists k. Qed.

(** Every event succeeds.  It changes the inventory by exactly the calls
    [Demo.calls_of] lists (none for typing, "Check Stock" and "Show All
    Items", and none for a click with an empty name field), only ever
    appends to the log, and leaves the quantity field alone unless the
    user types into it or an "Add" click resets it to 1. *)
Lemma dispatch_effect (app : Demo.App) (e : Demo.event) :
  Demo.live app.1 ->
  exists app',
    dispatch app e = Some app' /\
    Demo.live app'.1 /\
    Demo.inventory_of app'.1
    = run (Demo.calls_of app.2 e) (Demo.inventory_of app.1) /\
    Demo.logs app.2 `prefix_of` Demo.logs app'.2 /\
    Demo.quantity app'.2
    = match e with
      | Demo.TypeQuantity n => n
      | Demo.ClickAdd =>
          if decide (Demo.itemName app.2 = "") then Demo.quantity app.2
          else 1
      | _ => Demo.quantity app.2
      end.
Proof.
  destruct app as [w ui]. cbn [fst snd]. intros Hlive.
  destruct e as [v|n|p|n| | | |];
    unfold Demo.dispatch, Demo.calls_of, Demo.handleAddItem,
      Demo.handleSellItem, Demo.handleCheckStock, Demo.handleShowAllItems;
    cbn [fst snd];
    try (eexists; split; [reflexivity|]; simpl; by repeat split);
    try (destruct (decide (Demo.itemName ui = "")) as [Hempty|Hname];
         [exists (w, ui); by repeat split|]);
    destruct (getInstance w) as [r w1] eqn:Hg;
    destruct (getInstance_live w w1 r Hg Hlive) as (Hi1 & Hlive1 & Hinv1).
  - destruct (invoke_live
                (addItem (Demo.itemName ui) (Demo.quantity ui)
                   (Demo.price ui)) w1 r Hi1 Hlive1)
      as (w2 & -> & _ & Hlive2 & Hinv2).
    eexists. split; [reflexivity|]. simpl. rewrite Hinv2, Hinv1.
    repeat split; try done; apply prefix_of_app_r.
  - destruct (invoke_live
                (sellItem (Demo.itemName ui) (Demo.sellQuantity ui))
                w1 r Hi1 Hlive1) as (w2 & -> & _ & Hlive2 & Hinv2).
    eexists. split; [reflexivity|]. rewrite Hinv1 in *.
    destruct (sellItem (Demo.itemName ui) (Demo.sellQuantity ui)
                (Demo.inventory_of w)).1; simpl; rewrite Hinv2;
      repeat split; try done; apply prefix_of_app_r.
  - destruct (invoke_live (getStockCount (Demo.itemName ui)) w1 r Hi1 Hlive1)
      as (w2 & -> & Hi2 & Hlive2 & Hinv2).
    destruct (invoke_live (getPrice (Demo.itemName ui)) w2 r Hi2 Hlive2)
      as (w3 & -> & Hi3 & Hlive3 & Hinv3).
    eexists. split; [reflexivity|]. simpl in *. rewrite Hinv3, Hinv2, Hinv1.
    repeat split; try done; apply prefix_of_app_r.
  - destruct (invoke_live getAllItems w1 r Hi1 Hlive1)
      as (w2 & -> & Hi2 & Hlive2 & Hinv2).
    simpl in Hinv2. cbn [fst].
    case_decide.
    + eexists. split; [reflexivity|]. simpl. rewrite Hinv2, Hinv1.
      repeat split; try done; apply prefix_of_app_r.
    + destruct (showItem_fold r (getAllItems (Demo.inventory_of w1)).1 w2
                  (Demo.appendLog "Current inventory:" ui) Hi2 Hlive2)
        as (w' & -> & _ & Hlive' & Hinv').
      eexists. split; [reflexivity|]. simpl. rewrite Hinv', Hinv2, Hinv1.
      repeat split; try done. rewrite <- app_assoc. apply prefix_of_app_r.
Qed.

Lemma session_invariant (P : Demo.App -> Prop) (es : list Demo.event)
    (app : Demo.App) :
  (forall (a a' : Demo.App) (e : Demo.event),
     e ∈ es -> Demo.live a.1 -> P a -> dispatch a e = Some a' ->
     Demo.live a'.1 -> P a') ->
  Demo.live app.1 -> P app ->
  exists app', session es app = Some app' /\ Demo.live app'.1 /\ P app'.
Proof.
  revert app. induction es as [|e es IH]; intros app Hstep Hlive HP.
  - by exists app.
  - destruct (dispatch_effect app e Hlive) as (app1 & Hd & Hlive1 & _).
    simpl. rewrite Hd. apply IH; [|done|].
    + intros a a' e' He'. apply Hstep. apply elem_of_cons. by right.
    + apply (Hstep app app1 e); [apply elem_of_cons; by left|done..].
Qed.

(** Whatever the user types and clicks, starting from the page as loaded,
    no event fails, the inventory is one that a sequence of [addItem] and
    [sellItem] calls builds from the empty inventory, and the empty
    string is never registered as an item name. *)
Theorem session_never_registers_empty_name (es : list Demo.event) :
  exists app',
    session es Demo.loaded = Some app' /\
    reachable (Demo.inventory_of app'.1) /\
    "" ∉ (getAllItems (Demo.inventory_of app'.1)).1.*1.
Proof.
  destruct (session_invariant
              (fun a => reachable (Demo.inventory_of a.1) /\
                        "" ∉ JSMap.keys (items (Demo.inventory_of a.1)))
              es Demo.loaded) as (app' & Hs & _ & Hreach & Hne).
  - intros a a' e _ Hlive [[cs Hcs] Hne] Hd _.
    destruct (dispatch_effect a e Hlive) as (a1 & Hd1 & _ & Hinv & _).
    rewrite Hd in Hd1. injection Hd1 as <-. rewrite Hinv. split.
    + exists (cs ++ Demo.calls_of a.2 e). rewrite Hcs.
      unfold run. by rewrite foldl_app.
    + destruct e; simpl; try done.
      * case_decide as Hname; [done|]. unfold run; simpl.
        rewrite JSMapFacts.keys_set. by intros [?|?].
      * case_decide as Hname; [done|]. unfold run; simpl.
        unfold sellItem. case_match; [done|]. simpl.
        rewrite JSMapFacts.keys_set. by intros [?|?].
  - done.
  - split; [by exists []|]. apply not_elem_of_nil.
  - by exists app'.
Qed.

(** As long as the user never types a negative number into the
    "Quantity" field, no stock count of the page's inventory is ever
    negative, whatever is typed into the other fields. *)
Theorem session_stock_never_negative (es : list Demo.event)
    (name : string) :
  forallb Demo.quantity_nonneg es = true ->
  exists app',
    session es Demo.loaded = Some app' /\
    0 <= (getStockCount name (Demo.inventory_of app'.1)).1.
Proof.
  intros Hes.
  destruct (session_invariant
              (fun a => nonneg_items (Demo.inventory_of a.1) /\
                        0 <= Demo.quantity a.2)
              es Demo.loaded) as (app' & Hs & _ & Hnn & _).
  - intros a a' e He Hlive [Hnn Hq] Hd _.
    destruct (dispatch_effect a e Hlive) as (a1 & Hd1 & _ & Hinv & _ & Hq1).
    rewrite Hd in Hd1. injection Hd1 as <-. rewrite Hinv, Hq1.
    assert (He' : Demo.quantity_nonneg e = true).
    { rewrite forallb_forall in Hes. apply Hes. by apply list_elem_of_In. }
    split.
    + apply nonneg_items_run; [|done].
      destruct e; simpl; try done.
      * case_decide; [done|]. simpl. rewrite andb_true_r. by apply Z.leb_le.
      * by case_decide.
    + destruct e; simpl in *; try done.
      * by apply Z.leb_le.
      * case_decide; [done|lia].
  - done.
  - split; [apply nonneg_items_new|]. simpl. lia.
  - exists app'. split; [done|]. by apply (nonneg_items_get _ name).
Qed.
End DemoFacts.

Lemma session_stock_never_negative_witness :
  exists app',
    Demo.session pretty (fun p : Qc => pretty (Qnum p))
      [Demo.TypeItemName "Apple"; Demo.TypeQuantity 50; Demo.ClickAdd;
       Demo.TypeItemName "Apple"; Demo.TypeSellQuantity (-3);
       Demo.ClickSell; Demo.ClickShowAll] Demo.loaded
    = Some app' /\
    0 <= (getStockCount "Apple" (Demo.inventory_of app'.1)).1.
Proof.
  apply (session_stock_never_negative pretty (fun p : Qc => pretty (Qnum p))
           [Demo.TypeItemName "Apple"; Demo.TypeQuantity 50; Demo.ClickAdd;
            Demo.TypeItemName "Apple"; Demo.TypeSellQuantity (-3);
            Demo.ClickSell; Demo.ClickShowAll] "Apple").
  reflexivity.
Defined.

Lemma handleAddItem_effect_witness :
  exists w',
    Demo.handleAddItem pretty (fun p : Qc => pretty (Qnum p))
      (boot, {| Demo.logs := []; Demo.itemName := "Apple";
                Demo.quantity := 50; Demo.price := Q2Qc 2;
                Demo.sellQuantity := 1 |})
    = Some (w',
            {| Demo.logs := ["Added 50 Apple(s) at $2 each to inventory"];
               Demo.itemName := "";
               Demo.quantity := 1;
               Demo.price := Q2Qc 0.99;
               Demo.sellQuantity := 1 |}) /\
    Demo.live w' /\
    Demo.inventory_of w' = (addItem "Apple" 50 (Q2Qc 2) new_Inventory).2.
Proof.
  refine (handleAddItem_effect pretty (fun p : Qc => pretty (Qnum p)) boot
            {| Demo.logs := []; Demo.itemName := "Apple";
               Demo.quantity := 50; Demo.price := Q2Qc 2;
               Demo.sellQuantity := 1 |} I _).
  simpl. discriminate.
Defined.

Lemma handleSellItem_effect_witness :
  exists w',
    Demo.handleSellItem pretty
      ({| heap := [ {| items := [("Apple", 50)];
                       prices := [("Apple", Q2Qc 2)] |} ];
          instance := Some 0%nat |},
       {| Demo.logs := []; Demo.itemName := "Apple"; Demo.quantity := 1;
          Demo.price := Q2Qc 0.99; Demo.sellQuantity := 100 |})
    = Some (w',
            {| Demo.logs :=
                 ["Failed to sell 100 Apple(s) - insufficient stock"];
               Demo.itemName := "Apple";
               Demo.quantity := 1;
               Demo.price := Q2Qc 0.99;
               Demo.sellQuantity := 1 |}) /\
    Demo.live w' /\
    Demo.inventory_of w'
    = {| items := [("Apple", 50)]; prices := [("Apple", Q2Qc 2)] |}.
Proof.
  refine (handleSellItem_effect pretty
            {| heap := [ {| items := [("Apple", 50)];
                            prices := [("Apple", Q2Qc 2)] |} ];
               instance := Some 0%nat |}
            {| Demo.logs := []; Demo.itemName := "Apple";
               Demo.quantity := 1; Demo.price := Q2Qc 0.99;
               Demo.sellQuantity := 100 |} _ _).
  - unfold Demo.live. simpl. lia.
  - simpl. discriminate.
Defined.

Lemma handleCheckStock_effect_witness :
  exists w',
    Demo.handleCheckStock pretty (fun p : Qc => pretty (Qnum p))
      ({| heap := [ {| items := [("Apple", 50)];
                       prices := [("Apple", Q2Qc 2)] |} ];
          instance := Some 0%nat |},
       {| Demo.logs := []; Demo.itemName := "Apple"; Demo.quantity := 1;
          Demo.price := Q2Qc 0.99; Demo.sellQuantity := 1 |})
    = Some (w',
            {| Demo.logs :=
                 ["Stock check: 50 Apple(s) available at $2 each"];
               Demo.itemName := "Apple";
               Demo.quantity := 1;
               Demo.price := Q2Qc 0.99;
               Demo.sellQuantity := 1 |}) /\
    Demo.live w' /\
    Demo.inventory_of w'
    = {| items := [("Apple", 50)]; prices := [("Apple", Q2Qc 2)] |}.
Proof.
  refine (handleCheckStock_effect pretty (fun p : Qc => pretty (Qnum p))
            {| heap := [ {| items := [("Apple", 50)];
                            prices := [("Apple", Q2Qc 2)] |} ];
               instance := Some 0%nat |}
            {| Demo.logs := []; Demo.itemName := "Apple";
               Demo.quantity := 1; Demo.price := Q2Qc 0.99;
               Demo.sellQuantity := 1 |} _ _).
  - unfold Demo.live. simpl. lia.
  - simpl. discriminate.
Defined.

Lemma handleShowAllItems_effect_witness :
  exists w',
    Demo.handleShowAllItems pretty (fun p : Qc => pretty (Qnum p))
      ({| heap := [ {| items := [("Apple", 50); ("Ghost", 0)];
                       prices := [("Apple", Q2Qc 2)] |} ];
          instance := Some 0%nat |}, Demo.initial)
    = Some (w',
            {| Demo.logs :=
                 ["Current inventory:";
                  "- Apple: 50 in stock at $2 each";
                  "- Ghost: 0 in stock at $0 each"];
               Demo.itemName := "";
               Demo.quantity := 1;
               Demo.price := Q2Qc 0.99;
               Demo.sellQuantity := 1 |}) /\
    Demo.live w' /\
    Demo.inventory_of w'
    = {| items := [("Apple", 50); ("Ghost", 0)];
         prices := [("Apple", Q2Qc 2)] |}.
Proof.
  refine (handleShowAllItems_effect pretty (fun p : Qc => pretty (Qnum p))
            {| heap := [ {| items := [("Apple", 50); ("Ghost", 0)];
                            prices := [("Apple", Q2Qc 2)] |} ];
               instance := Some 0%nat |} Demo.initial _).
  unfold Demo.live. simpl. lia.
Defined.

Lemma handleAddItem_twice_witness :
  Demo.handleAddItem pretty (fun p : Qc => pretty (Qnum p))
    ({| heap := [ {| items := [("Apple", 50)];
                     prices := [("Apple", Q2Qc 2)] |} ];
        instance := Some 0%nat |},
     {| Demo.logs := ["Added 50 Apple(s) at $2 each to inventory"];
        Demo.itemName := ""; Demo.quantity := 1;
        Demo.price := Q2Qc 0.99; Demo.sellQuantity := 1 |})
  = Some ({| heap := [ {| items := [("Apple", 50)];
                          prices := [("Apple", Q2Qc 2)] |} ];
             instance := Some 0%nat |},
          {| Demo.logs := ["Added 50 Apple(s) at $2 each to inventory"];
             Demo.itemName := ""; Demo.quantity := 1;
             Demo.price := Q2Qc 0.99; Demo.sellQuantity := 1 |}).
Proof.
  apply (handleAddItem_twice pretty (fun p : Qc => pretty (Qnum p))
           (boot, {| Demo.logs := []; Demo.itemName := "Apple";
                     Demo.quantity := 50; Demo.price := Q2Qc 2;
                     Demo.sellQuantity := 1 |})).
  reflexivity.
Defined.
End DemoFacts.


(** * Produce bundles *)

Module ProduceBundleFacts.
Import ProduceBundle.

Lemma lookup_all_app (objs extra : list BundleItem.t) (l : list ref)
    (its : list BundleItem.t) :
  mapM (fun r => objs !! r) l = Some its ->
  mapM (fun r => (objs ++ extra) !! r) l = Some its.
Proof.
  rewrite !mapM_Some. intros H. eapply Forall2_impl; [exact H|].
  intros r it Hr. by apply lookup_app_l_Some.
Qed.

Lemma lookup_all_fresh (objs its : list BundleItem.t) :
  mapM (fun r => (objs ++ its) !! r) (seq (length objs) (length its))
  = Some its.
Proof.
  revert objs. induction its as [|it its IH]; intros objs; [done|].
  cbn [length seq]. rewrite mapM_Some. apply Forall2_cons. split.
  - by rewrite lookup_app_r, Nat.sub_diag.
  - apply mapM_Some. specialize (IH (objs ++ [it])).
    rewrite length_app, Nat.add_1_r, <- app_assoc in IH. exact IH.
Qed.

Lemma lookup_all_bound (objs : list BundleItem.t) (l : list ref)
    (its : list BundleItem.t) :
  mapM (fun r => objs !! r) l = Some its ->
  Forall (fun r => (r < length objs)%nat) l.
Proof.
  rewrite mapM_Some. intros H.
  induction H as [|r it l its Hr _ IH]; constructor; [|done].
  by apply lookup_lt_Some in Hr.
Qed.

Lemma lookup_all_length (objs : list BundleItem.t) (l : list ref)
    (its : list BundleItem.t) :
  mapM (fun r => objs !! r) l = Some its -> length l = length its.
Proof. rewrite mapM_Some. apply Forall2_length. Qed.

Lemma map_elements_copy (l : list ref) (its : list BundleItem.t) (h : Heap) :
  mapM (fun r => objs h !! r) l = Some its ->
  map_elements copy_item l h
  = Some (seq (length (objs h)) (length l),
          {| objs := objs h ++ its; arrays := arrays h;
             strings := strings h; bundles := bundles h |}).
Proof.
  revert its h. induction l as [|r l IH]; intros its h Hall.
  - injection Hall as <-. simpl. unfold ret. rewrite app_nil_r.
    by destruct h.
  - apply mapM_Some in Hall. apply Forall2_cons_inv_l in Hall
      as (it & its' & Hr & Hall & ->). apply mapM_Some in Hall.
    cbn [map_elements]. unfold bind at 1. unfold copy_item at 1.
    unfold bind at 1, read_item at 1. rewrite Hr.
    unfold new_BundleItem at 1. unfold bind at 1.
    rewrite (IH its'); simpl.
    + unfold ret. rewrite length_app, Nat.add_1_r, <- app_assoc.
      by destruct it.
    + by apply lookup_all_app.
Qed.

Lemma reduce_total (l : list ref) (its : list BundleItem.t) (h : Heap)
    (acc : Qc) :
  mapM (fun r => objs h !! r) l = Some its ->
  reduce_elements
    (fun total r =>
       bind (read_item r)
         (fun item =>
            ret (total + BundleItem.price item
                         * Qc_of_Z (BundleItem.quantity item))%Qc))
    acc l h
  = Some (foldl (fun total item =>
                   (total + BundleItem.price item
                            * Qc_of_Z (BundleItem.quantity item))%Qc)
            acc its, h).
Proof.
  revert its acc. induction l as [|r l IH]; intros its acc Hall.
  - by injection Hall as <-.
  - apply mapM_Some in Hall. apply Forall2_cons_inv_l in Hall
      as (it & its' & Hr & Hall & ->). apply mapM_Some in Hall.
    cbn [reduce_elements]. unfold bind at 1. unfold bind at 1.
    unfold read_item at 1. rewrite Hr. unfold ret at 1.
    by rewrite (IH its').
Qed.

Lemma total_of_items (a : ref) (l : list ref) (its : list BundleItem.t)
    (h : Heap) :
  arrays h !! a = Some l ->
  mapM (fun r => objs h !! r) l = Some its ->
  total_of a h = Some (sum_prices its, h).
Proof.
  intros Ha Hall. unfold total_of, bind at 1, read_array. rewrite Ha.
  by apply reduce_total.
Qed.

(** A well-formed bundle, seen through its references. *)
Lemma view_Some (h : Heap) (b : ref) (v : View) :
  view h b = Some v ->
  exists bd l,
    bundles h !! b = Some bd /\ arrays h !! items bd = Some l /\
    strings h !! tags bd = Some (v_tags v) /\
    mapM (fun r => objs h !! r) l = Some (v_items v) /\
    v = {| v_name := name bd; v_items := v_items v;
           v_totalPrice := totalPrice bd;
           v_discountPercentage := discountPercentage bd;
           v_tags := v_tags v; v_seasonal := seasonal bd |}.
Proof.
  unfold view. destruct (bundles h !! b) as [bd|] eqn:Hb; [|done].
  destruct (arrays h !! items bd) as [l|] eqn:Hl; [|done].
  destruct (strings h !! tags bd) as [tg|] eqn:Htg; [|done].
  destruct (mapM _ l) as [its|] eqn:Hits; [|done].
  intros [= <-]. by exists bd, l.
Qed.

Lemma bind_Some {A B : Type} (m : M A) (k : A -> M B) (h h1 : Heap) (a : A) :
  m h = Some (a, h1) -> bind m k h = k a h1.
Proof. unfold bind. by intros ->. Qed.

(** Allocation leaves what was there alone. *)
Lemma view_extend (h : Heap) (b : ref) (v : View) (o : list BundleItem.t)
    (a : list (list ref)) (s : list (list string)) (bs : list t) :
  view h b = Some v ->
  view {| objs := objs h ++ o; arrays := arrays h ++ a;
          strings := strings h ++ s; bundles := bundles h ++ bs |} b
  = Some v.
Proof.
  intros Hv. destruct (view_Some h b v Hv)
    as (bd & l & Hb & Hl & Htg & Hits & Heq).
  unfold view. simpl.
  rewrite (lookup_app_l_Some _ _ _ _ Hb), (lookup_app_l_Some _ _ _ _ Hl),
    (lookup_app_l_Some _ _ _ _ Htg), (lookup_all_app _ o _ _ Hits).
  by rewrite Heq.
Qed.

(** The bundle a copying method builds from item values [its], tags [tg]
    and the remaining fields. *)
Lemma copy_into_new_bundle (h : Heap) (b : ref) (v : View)
    (newName : string) (discount : Qc) (tg : list string)
    (seasonal : bool) :
  view h b = Some v ->
  bind (new_array (seq (length (objs h)) (length (v_items v))))
    (fun copiedItems =>
       bind (new_strings tg)
         (fun newTags =>
            new_ProduceBundle newName copiedItems discount newTags seasonal))
    {| objs := objs h ++ v_items v; arrays := arrays h;
       strings := strings h; bundles := bundles h |}
  = Some (length (bundles h),
          {| objs := objs h ++ v_items v;
             arrays :=
               arrays h ++ [seq (length (objs h)) (length (v_items v))];
             strings := strings h ++ [tg];
             bundles :=
               bundles h
               ++ [ {| name := newName; items := length (arrays h);
                       totalPrice := sum_prices (v_items v);
                       discountPercentage := discount;
                       tags := length (strings h);
                       seasonal := seasonal |} ] |}).
Proof.
  intros Hv. unfold bind at 1, new_array at 1. cbn [arrays objs strings bundles].
  unfold bind at 1, new_strings at 1. cbn [arrays objs strings bundles].
  unfold new_ProduceBundle.
  erewrite bind_Some.
  2: { apply (total_of_items _ (seq (length (objs h)) (length (v_items v)))).
       - simpl. by rewrite lookup_app_r, Nat.sub_diag.
       - simpl. apply lookup_all_fresh. }
  done.
Qed.

Lemma view_new_bundle (h : Heap) (its : list BundleItem.t)
    (tg : list string) (bd : t) :
  items bd = length (arrays h) -> tags bd = length (strings h) ->
  view {| objs := objs h ++ its;
          arrays := arrays h ++ [seq (length (objs h)) (length its)];
          strings := strings h ++ [tg];
          bundles := bundles h ++ [bd] |} (length (bundles h))
  = Some {| v_name := name bd; v_items := its;
            v_totalPrice := totalPrice bd;
            v_discountPercentage := discountPercentage bd;
            v_tags := tg; v_seasonal := seasonal bd |}.
Proof.
  intros Hi Ht. unfold view. simpl.
  rewrite lookup_app_r, Nat.sub_diag by done. simpl.
  rewrite Hi, Ht. rewrite !lookup_app_r, !Nat.sub_diag by done. simpl.
  by rewrite lookup_all_fresh.
Qed.

Lemma createSimilarBundle_run (h : Heap) (b : ref) (v : View)
    (newName : string) (additionalDiscount : Qc) :
  view h b = Some v ->
  createSimilarBundle b newName additionalDiscount h
  = Some (length (bundles h),
          {| objs := objs h ++ v_items v;
             arrays :=
               arrays h ++ [seq (length (objs h)) (length (v_items v))];
             strings := strings h ++ [v_tags v];
             bundles :=
               bundles h
               ++ [ {| name := newName; items := length (arrays h);
                       totalPrice := sum_prices (v_items v);
                       discountPercentage :=
                         (v_discountPercentage v + additionalDiscount)%Qc;
                       tags := length (strings h);
                       seasonal := v_seasonal v |} ] |}).
Proof.
  intros Hv. destruct (view_Some h b v Hv)
    as (bd & l & Hb & Hl & Htg & Hits & Heq).
  unfold createSimilarBundle.
  erewrite bind_Some; [|unfold read_bundle; by rewrite Hb].
  erewrite bind_Some; [|unfold read_array; by rewrite Hl].
  erewrite bind_Some; [|by apply map_elements_copy].
  rewrite (lookup_all_length _ _ _ Hits).
  unfold bind at 2. unfold read_strings at 1.
  cbn [arrays objs strings bundles]. unfold new_array at 1.
  cbn [arrays objs strings bundles]. unfold bind at 1.
  cbn [arrays objs strings bundles]. rewrite Htg.
  pose proof (copy_into_new_bundle h b v newName
                (discountPercentage bd + additionalDiscount)%Qc
                (v_tags v) (seasonal bd) Hv) as Hnew.
  unfold bind at 1, new_array at 1 in Hnew.
  cbn [arrays objs strings bundles] in Hnew. rewrite Hnew.
  rewrite Heq. reflexivity.
Qed.


(** [createSimilarBundle] makes a deep copy.  On a well-formed bundle it
    returns a fresh bundle with the new name, the items and tags of the
    original, the sum of the two discounts, and a total price computed
    from the items (whatever the original's [totalPrice] field held); the
    original reads as before. *)
Theorem createSimilarBundle_deep_copy (h : Heap) (b : ref) (v : View)
    (newName : string) (additionalDiscount : Qc) :
  view h b = Some v ->
  exists h',
    createSimilarBundle b newName additionalDiscount h
    = Some (length (bundles h), h') /\
    view h' (length (bundles h))
    = Some {| v_name := newName; v_items := v_items v;
              v_totalPrice := sum_prices (v_items v);
              v_discountPercentage :=
                (v_discountPercentage v + additionalDiscount)%Qc;
              v_tags := v_tags v; v_seasonal := v_seasonal v |} /\
    view h' b = Some v.
Proof.
  intros Hv. eexists. split; [by apply createSimilarBundle_run|]. split.
  - by rewrite view_new_bundle.
  - by apply (view_extend h b v).
Qed.


Lemma lookup_all_insert (os : list BundleItem.t) (l : list ref) (r : ref)
    (it : BundleItem.t) :
  r ∉ l ->
  mapM (fun r' => <[r := it]> os !! r') l = mapM (fun r' => os !! r') l.
Proof.
  induction l as [|r' l IH]; intros Hnotin; [done|].
  apply not_elem_of_cons in Hnotin as [Hne Hnotin]. simpl.
  by rewrite list_lookup_insert_ne, IH.
Qed.

(** A bundle reads the same after an assignment to an item that is not
    in its array, to an array that is not its array, or to a tag array
    that is not its tag array. *)
Lemma view_set_item (h : Heap) (b : ref) (bd : t) (l : list ref) (r : ref)
    (it : BundleItem.t) :
  bundles h !! b = Some bd -> arrays h !! items bd = Some l -> r ∉ l ->
  view (set_item r it h) b = view h b.
Proof.
  intros Hb Hl Hnotin. unfold view. simpl. rewrite Hb, Hl.
  by rewrite lookup_all_insert.
Qed.

Lemma view_set_array (h : Heap) (b : ref) (bd : t) (a : ref)
    (l : list ref) :
  bundles h !! b = Some bd -> items bd <> a ->
  view (set_array a l h) b = view h b.
Proof.
  intros Hb Hne. unfold view. simpl. rewrite Hb.
  by rewrite list_lookup_insert_ne.
Qed.

Lemma view_set_strings (h : Heap) (b : ref) (bd : t) (a : ref)
    (l : list string) :
  bundles h !! b = Some bd -> tags bd <> a ->
  view (set_strings a l h) b = view h b.
Proof.
  intros Hb Hne. unfold view. simpl. rewrite Hb.
  by rewrite list_lookup_insert_ne.
Qed.

(** The copy and the original share no mutable object.  After
    [createSimilarBundle], assigning to an item of the copy, changing the
    copy's item array or its tag array leaves the original reading as
    before, and the same assignments on the original's side leave the
    copy reading as before. *)
Theorem copy_shares_nothing (h h' : Heap) (b b' : ref) (v : View)
    (bd bd' : t) (l l' : list ref) (newName : string)
    (additionalDiscount : Qc) :
  view h b = Some v ->
  createSimilarBundle b newName additionalDiscount h = Some (b', h') ->
  bundles h' !! b = Some bd -> arrays h' !! items bd = Some l ->
  bundles h' !! b' = Some bd' -> arrays h' !! items bd' = Some l' ->
  (forall r it, r ∈ l' -> view (set_item r it h') b = Some v) /\
  (forall l2, view (set_array (items bd') l2 h') b = Some v) /\
  (forall t2, view (set_strings (tags bd') t2 h') b = Some v) /\
  (forall r it, r ∈ l -> view (set_item r it h') b' = view h' b') /\
  (forall l2, view (set_array (items bd) l2 h') b' = view h' b') /\
  (forall t2, view (set_strings (tags bd) t2 h') b' = view h' b').
Proof.
  intros Hv Hrun Hb Hl Hb' Hl'.
  rewrite (createSimilarBundle_run h b v newName additionalDiscount Hv)
    in Hrun. injection Hrun as <- <-.
  assert (Hvb : view
            {| objs := objs h ++ v_items v;
               arrays :=
                 arrays h ++ [seq (length (objs h)) (length (v_items v))];
               strings := strings h ++ [v_tags v];
               bundles :=
                 bundles h
                 ++ [ {| name := newName; items := length (arrays h);
                         totalPrice := sum_prices (v_items v);
                         discountPercentage :=
                           (v_discountPercentage v + additionalDiscount)%Qc;
                         tags := length (strings h);
                         seasonal := v_seasonal v |} ] |} b = Some v).
  { by apply (view_extend h b v). }
  destruct (view_Some h b v Hv) as (bd0 & l0 & Hb0 & Hl0 & Htg0 & Hits0 & _).
  simpl in Hb, Hl, Hb', Hl'.
  rewrite (lookup_app_l_Some _ _ _ _ Hb0) in Hb. injection Hb as <-.
  rewrite (lookup_app_l_Some _ _ _ _ Hl0) in Hl. injection Hl as <-.
  rewrite lookup_app_r, Nat.sub_diag in Hb' by done. injection Hb' as <-.
  simpl in Hl'. rewrite lookup_app_r, Nat.sub_diag in Hl' by done.
  injection Hl' as <-.
  pose proof (lookup_all_bound _ _ _ Hits0) as Hbound.
  rewrite Forall_forall in Hbound.
  pose proof (lookup_lt_Some _ _ _ Hl0) as Hlt_arr.
  pose proof (lookup_lt_Some _ _ _ Htg0) as Hlt_tag.
  repeat split.
  - intros r it Hr. rewrite <- Hvb.
    eapply view_set_item;
      [simpl; by apply lookup_app_l_Some
      |simpl; by apply lookup_app_l_Some|].
    intros Hin. apply Hbound in Hin. apply elem_of_seq in Hr. lia.
  - intros l2. rewrite <- Hvb.
    eapply view_set_array; [simpl; by apply lookup_app_l_Some|]. simpl. lia.
  - intros t2. rewrite <- Hvb.
    eapply view_set_strings; [simpl; by apply lookup_app_l_Some|]. simpl. lia.
  - intros r it Hr.
    eapply view_set_item.
    + simpl. by rewrite lookup_app_r, Nat.sub_diag.
    + simpl. by rewrite lookup_app_r, Nat.sub_diag.
    + intros Hin. apply Hbound in Hr. apply elem_of_seq in Hin. lia.
  - intros l2.
    eapply view_set_array;
      [simpl; by rewrite lookup_app_r, Nat.sub_diag|]. simpl. lia.
  - intros t2.
    eapply view_set_strings;
      [simpl; by rewrite lookup_app_r, Nat.sub_diag|]. simpl. lia.
Qed.

(** The constructor keeps the array it is given and takes the total
    price once.  Right after construction [calculateTotalPrice()] and
    the [totalPrice] field agree; when the caller's array changes later,
    [calculateTotalPrice()] follows the array, while [totalPrice], and
    with it [getDiscountedPrice()], stays at the sum taken at
    construction. *)
Theorem totalPrice_is_a_snapshot (h h1 : Heap) (b : ref) (name : string)
    (arr : ref) (discount : Qc) (tg : ref) (seasonal : bool)
    (l : list ref) (its : list BundleItem.t) :
  arrays h !! arr = Some l ->
  mapM (fun r => objs h !! r) l = Some its ->
  new_ProduceBundle name arr discount tg seasonal h = Some (b, h1) ->
  (exists bd, bundles h1 !! b = Some bd /\ items bd = arr /\
              totalPrice bd = sum_prices its) /\
  calculateTotalPrice b h1 = Some (sum_prices its, h1) /\
  forall (l2 : list ref) (its2 : list BundleItem.t),
    mapM (fun r => objs h1 !! r) l2 = Some its2 ->
    calculateTotalPrice b (set_array arr l2 h1)
    = Some (sum_prices its2, set_array arr l2 h1) /\
    getDiscountedPrice b (set_array arr l2 h1)
    = Some ((sum_prices its * (1 - discount / Qc_of_Z 100))%Qc,
            set_array arr l2 h1).
Proof.
  intros Harr Hits. unfold new_ProduceBundle.
  rewrite (bind_Some _ _ _ _ _ (total_of_items arr l its h Harr Hits)).
  unfold alloc_bundle. intros [= <- <-].
  split; [|split].
  - eexists. split; [simpl; by rewrite lookup_app_r, Nat.sub_diag|done].
  - unfold calculateTotalPrice.
    erewrite bind_Some;
      [|unfold read_bundle; simpl; by rewrite lookup_app_r, Nat.sub_diag].
    simpl. by apply (total_of_items arr l its).
  - intros l2 its2 Hits2. split.
    + unfold calculateTotalPrice.
      erewrite bind_Some;
        [|unfold read_bundle; simpl; by rewrite lookup_app_r, Nat.sub_diag].
      simpl. apply (total_of_items arr l2 its2); [|done]. simpl.
      apply list_lookup_insert_eq. by apply lookup_lt_Some in Harr.
    + unfold getDiscountedPrice.
      erewrite bind_Some;
        [|unfold read_bundle; simpl; by rewrite lookup_app_r, Nat.sub_diag].
      done.
Qed.






Lemma createSimilarBundle_deep_copy_witness :
  exists h',
    createSimilarBundle 0 "Weekend Special" (Q2Qc 5) weekday_heap
    = Some (1%nat, h') /\
    view h' 1
    = Some {| v_name := "Weekend Special"; v_items := weekday_items;
              v_totalPrice := sum_prices weekday_items;
              v_discountPercentage := (Q2Qc 10 + Q2Qc 5)%Qc;
              v_tags := ["popular"; "healthy"]; v_seasonal := false |} /\
    view h' 0 = Some weekday_view.
Proof.
  exact (createSimilarBundle_deep_copy weekday_heap 0 weekday_view
           "Weekend Special" (Q2Qc 5) eq_refl).
Defined.


Lemma copy_shares_nothing_witness :
  view (set_item 3 (BundleItem.mk "Carrot" (Q2Qc 2.49) 50 true) weekend_heap)
    0
  = Some weekday_view /\
  view (set_array 0 [] weekend_heap) 1 = view weekend_heap 1.
Proof.
  assert (H : createSimilarBundle 0 "Weekend Special" (Q2Qc 5) weekday_heap
              = Some (1%nat, weekend_heap)) by reflexivity.
  split.
  - refine (proj1 (copy_shares_nothing weekday_heap weekend_heap 0 1
                     weekday_view _ _ [0; 1; 2]%nat [3; 4; 5]%nat _ _
                     eq_refl H eq_refl eq_refl eq_refl eq_refl) 3%nat _ _).
    apply (bool_decide_unpack _). vm_compute. reflexivity.
  - exact (proj1 (proj2 (proj2 (proj2 (proj2
             (copy_shares_nothing weekday_heap weekend_heap 0 1
                weekday_view _ _ [0; 1; 2]%nat [3; 4; 5]%nat _ _
                eq_refl H eq_refl eq_refl eq_refl eq_refl))))) []).
Defined.

Lemma totalPrice_is_a_snapshot_witness :
  calculateTotalPrice 0 weekday_heap
  = Some (sum_prices weekday_items, weekday_heap) /\
  calculateTotalPrice 0 (set_array 0 [0%nat] weekday_heap)
  = Some (sum_prices [BundleItem.mk "Carrot" (Q2Qc 1.99) 5 false],
          set_array 0 [0%nat] weekday_heap) /\
  getDiscountedPrice 0 (set_array 0 [0%nat] weekday_heap)
  = Some ((sum_prices weekday_items * (1 - Q2Qc 10 / Qc_of_Z 100))%Qc,
          set_array 0 [0%nat] weekday_heap).
Proof.
  pose proof (totalPrice_is_a_snapshot weekday_parts weekday_heap 0
                "Weekday Mix" 0 (Q2Qc 10) 0 false [0; 1; 2]%nat
                weekday_items eq_refl eq_refl eq_refl) as (_ & Hnow & Hlater).
  split; [exact Hnow|].
  exact (Hlater [0%nat] [BundleItem.mk "Carrot" (Q2Qc 1.99) 5 false]
           eq_refl).
Defined.


(** A bundle constructed over an empty item array (the constructor's
    default) has a total price of 0, and its discounted price is 0
    whatever the discount: the [reduce] starts from 0 and does not fail
    on the empty array. *)
Theorem empty_bundle_costs_nothing (h : Heap) (name : string) (arr : ref)
    (discount : Qc) (tg : ref) (seasonal : bool) :
  arrays h !! arr = Some [] ->
  exists b h1,
    new_ProduceBundle name arr discount tg seasonal h = Some (b, h1) /\
    calculateTotalPrice b h1 = Some (0%Qc, h1) /\
    getDiscountedPrice b h1 = Some (0%Qc, h1).
Proof.
  intros Harr.
  assert (Htot : forall h0, arrays h0 !! arr = Some [] ->
                            total_of arr h0 = Some (0%Qc, h0)).
  { intros h0 H0. by apply (total_of_items arr [] []). }
  eexists _, _. split.
  { unfold new_ProduceBundle. erewrite bind_Some; [|by apply Htot].
    reflexivity. }
  split.
  - unfold calculateTotalPrice.
    erewrite bind_Some;
      [|unfold read_bundle; simpl; by rewrite lookup_app_r, Nat.sub_diag].
    simpl. by apply Htot.
  - unfold getDiscountedPrice.
    erewrite bind_Some;
      [|unfold read_bundle; simpl; by rewrite lookup_app_r, Nat.sub_diag].
    simpl. unfold ret. by rewrite Qcmult_0_l.
Qed.

Lemma empty_bundle_costs_nothing_witness :
  exists b h1,
    new_ProduceBundle "Empty" 0 (Q2Qc 10) 0 false
      {| objs := []; arrays := [[]]; strings := [[]]; bundles := [] |}
    = Some (b, h1) /\
    calculateTotalPrice b h1 = Some (0%Qc, h1) /\
    getDiscountedPrice b h1 = Some (0%Qc, h1).
Proof.
  exact (empty_bundle_costs_nothing
           {| objs := []; arrays := [[]]; strings := [[]]; bundles := [] |}
           "Empty" 0 (Q2Qc 10) 0 false eq_refl).
Defined.
End ProduceBundleFacts.

